(** * webchecker: a shallow embedding of [cli.py]

    The program fetches configured pages, checks the response text against
    regular-expression requirements and keeps a per-page event log in a JSON
    file; a status page renders the last ten events of every page.

    Python values are modelled as the program uses them:
    - a [dict] is an association list in insertion order ([dict_get],
      [dict_set]); the [defaultdict(list)] of the log inserts a key when it
      is read ([dd_getitem]);
    - a float is the rational number it denotes ([Q]);
    - a file holds a JSON document ([json]) or text that is not JSON;
    - code with effects runs in the monad [M]: a state (the [_log] of the
      [Log] object, the files, the clock position and the trace of outside
      effects) and a result that is a value or a raised exception.

    What the program calls from outside is a parameter of the model:
    [time.time], [requests.get], [re.search] and the printing of dates and
    of values. *)

From Stdlib Require Import String Ascii List ZArith QArith Qabs Bool Lia.
From Stdlib Require Import DecimalString.
Import ListNotations.
Close Scope Q_scope.
Open Scope string_scope.
Open Scope list_scope.

Set Implicit Arguments.
Set Warnings "-register-all".

(** ** Python dictionaries with string keys *)

Section Dict.
Context {V : Type}.

Definition dict : Type := list (string * V).

(** [d.get(k)]: [None] stands for the [KeyError] of [d[k]]. *)
Fixpoint dict_get (k : string) (d : dict) : option V :=
  match d with
  | [] => None
  | (k', v) :: d' => if String.eqb k k' then Some v else dict_get k d'
  end.

(** [d[k] = v]: an existing key keeps its position, a new one goes last. *)
Fixpoint dict_set (k : string) (v : V) (d : dict) : dict :=
  match d with
  | [] => [(k, v)]
  | (k', v') :: d' =>
      if String.eqb k k' then (k', v) :: d' else (k', v') :: dict_set k v d'
  end.

(** [d.update(pairs)]. *)
Definition dict_update (d : dict) (pairs : list (string * V)) : dict :=
  fold_left (fun acc kv => dict_set (fst kv) (snd kv) acc) pairs d.

(** [d.keys()]. *)
Definition dict_keys (d : dict) : list string := map fst d.

(** A list of pairs is a dictionary when no key occurs twice. *)
Definition is_dict (d : dict) : Prop := NoDup (dict_keys d).
End Dict.

Arguments dict : clear implicits.

(** ** Data model *)

(** A requirement of the config: a JSON array, the checker's name first. *)
Definition requirement : Type := list string.

(** The values the program stores in an event. *)
Inductive value : Type :=
| VStr (s : string)
| VNum (q : Q)
| VReq (r : requirement).

(** An event is a [dict]: ['type'], the fields of its kind, ['timestamp']. *)
Definition event : Type := dict value.

(** [Log._log]: page name to the list of its events, oldest first. *)
Definition log_map : Type := dict (list event).

Record page_config : Type := mkPageConfig {
  url : string;
  requirements : list requirement
}.

Definition config : Type := dict page_config.

(** ** JSON documents *)

Inductive json : Type :=
| JNull
| JBool (b : bool)
| JNum (q : Q)
| JStr (s : string)
| JArr (items : list json)
| JObj (fields : list (string * json)).

Inductive file : Type :=
| FileText (s : string)     (* text that [json.load] rejects *)
| FileJson (j : json).

(** [sequence]: all the results, or nothing when one is missing. *)
Fixpoint all_some {A : Type} (l : list (option A)) : option (list A) :=
  match l with
  | [] => Some []
  | None :: _ => None
  | Some a :: l' =>
      match all_some l' with
      | Some r => Some (a :: r)
      | None => None
      end
  end.

(** What [json.dump] writes for the log. *)
Definition requirement_to_json (r : requirement) : json := JArr (map JStr r).

Definition value_to_json (v : value) : json :=
  match v with
  | VStr s => JStr s
  | VNum q => JNum q
  | VReq r => requirement_to_json r
  end.

Definition event_to_json (e : event) : json :=
  JObj (map (fun kv => (fst kv, value_to_json (snd kv))) e).

Definition log_to_json (l : log_map) : json :=
  JObj (map (fun pe => (fst pe, JArr (map event_to_json (snd pe)))) l).

(** What [json.load] builds.  An object becomes a [dict], so a repeated key
    keeps its first position and its last value.  A document of another
    shape than the log's (or the config's) is refused: [None]. *)
Definition string_of_json (j : json) : option string :=
  match j with
  | JStr s => Some s
  | _ => None
  end.

Definition requirement_of_json (j : json) : option requirement :=
  match j with
  | JArr items => all_some (map string_of_json items)
  | _ => None
  end.

Definition value_of_json (j : json) : option value :=
  match j with
  | JStr s => Some (VStr s)
  | JNum q => Some (VNum q)
  | JArr items => option_map VReq (all_some (map string_of_json items))
  | _ => None
  end.

Definition field_of_json {A : Type} (f : json -> option A)
    (kv : string * json) : option (string * A) :=
  option_map (pair (fst kv)) (f (snd kv)).

Definition event_of_json (j : json) : option event :=
  match j with
  | JObj fields =>
      option_map (dict_update []) (all_some (map (field_of_json value_of_json) fields))
  | _ => None
  end.

Definition events_of_json (j : json) : option (list event) :=
  match j with
  | JArr items => all_some (map event_of_json items)
  | _ => None
  end.

Definition log_of_json (j : json) : option log_map :=
  match j with
  | JObj fields =>
      option_map (dict_update []) (all_some (map (field_of_json events_of_json) fields))
  | _ => None
  end.

Definition page_config_of_json (j : json) : option page_config :=
  match j with
  | JObj fields =>
      match dict_get "url" (dict_update [] fields),
            dict_get "requirements" (dict_update [] fields) with
      | Some (JStr u), Some (JArr rs) =>
          option_map (mkPageConfig u) (all_some (map requirement_of_json rs))
      | _, _ => None
      end
  | _ => None
  end.

Definition config_of_json (j : json) : option config :=
  match j with
  | JObj fields =>
      option_map (dict_update [])
        (all_some (map (field_of_json page_config_of_json) fields))
  | _ => None
  end.

(** ** The [defaultdict(list)] of the log *)

(** [m[page]]: a missing page is inserted with an empty list. *)
Definition dd_getitem (page : string) (m : log_map) : list event * log_map :=
  match dict_get page m with
  | Some events => (events, m)
  | None => ([], m ++ [(page, [])])
  end.

(** [m[page].append(e)]. *)
Definition dd_append (page : string) (e : event) (m : log_map) : log_map :=
  let (events, m') := dd_getitem page m in
  dict_set page (events ++ [e]) m'.

(** ** Exceptions, effects and the monad *)

Inductive exn : Type :=
| KeyError (key : string)
| IndexError
| AttributeError (msg : string)
| TypeError
| ValueError
| JSONDecodeError
| FileNotFoundError (path : string)
| re_error (pattern : string).

(** What [print] is given. *)
Inductive output : Type :=
| OutStr (s : string)
| OutEvent (e : event).

(** What the program does to the outside, in order. *)
Inductive effect : Type :=
| EGet (u : string)                    (* requests.get(u) *)
| ESearch (pattern text : string)      (* re.search(pattern, text) *)
| EPrint (o : output)
| EWrite (path : string) (j : json)    (* open(path, 'w') and json.dump *)
| ESleep (seconds : Z)
| EThreadStart (logfile : string).     (* the status server's thread *)

Record state : Type := mkState {
  _log : log_map;                      (* [self._log] of the thread's [Log] *)
  files : string -> option file;
  ticks : nat;                         (* readings of the clock so far *)
  trace : list effect
}.

Inductive result (A : Type) : Type :=
| Ret (a : A)
| Raise (e : exn)
| OutOfFuel.

Arguments Ret {A} a.
Arguments Raise {A} e.
Arguments OutOfFuel {A}.

Definition M (A : Type) : Type := state -> result A * state.

Definition ret {A : Type} (a : A) : M A := fun s => (Ret a, s).

Definition raise {A : Type} (e : exn) : M A := fun s => (Raise e, s).

Definition out_of_fuel {A : Type} : M A := fun s => (OutOfFuel, s).

Definition bind {A B : Type} (m : M A) (k : A -> M B) : M B :=
  fun s =>
    match m s with
    | (Ret a, s') => k a s'
    | (Raise e, s') => (Raise e, s')
    | (OutOfFuel, s') => (OutOfFuel, s')
    end.

Notation "x <- m ;; k" := (bind m (fun x => k))
  (at level 61, m at next level, right associativity).
Notation "m ;; k" := (bind m (fun _ => k))
  (at level 61, right associativity).

Definition when (b : bool) (m : M unit) : M unit :=
  if b then m else ret tt.

(** [for x in xs: body(x)]. *)
Fixpoint for_each {A : Type} (xs : list A) (body : A -> M unit) : M unit :=
  match xs with
  | [] => ret tt
  | x :: xs' => body x ;; for_each xs' body
  end.

(** [while True: body], where [body] answers whether it hit [break]. *)
Fixpoint while_true (fuel : nat) (body : M bool) : M unit :=
  match fuel with
  | O => out_of_fuel
  | S fuel' => stop <- body ;; if stop then ret tt else while_true fuel' body
  end.

Definition get_log : M log_map := fun s => (Ret (_log s), s).

Definition set_log (l : log_map) : M unit :=
  fun s => (Ret tt, mkState l (files s) (ticks s) (trace s)).

Definition emit (e : effect) : M unit :=
  fun s => (Ret tt, mkState (_log s) (files s) (ticks s) (trace s ++ [e])).

Definition print (o : output) : M unit := emit (EPrint o).

Definition time_sleep (seconds : Z) : M unit := emit (ESleep seconds).

Definition os_path_exists (path : string) : M bool :=
  fun s => (Ret (match files s path with Some _ => true | None => false end), s).

Definition write_file (path : string) (f : file)
    (fs : string -> option file) : string -> option file :=
  fun p => if String.eqb p path then Some f else fs p.

(** [with open(path, 'w') as f: json.dump(obj, f)]. *)
Definition open_write_json (path : string) (j : json) : M unit :=
  fun s => (Ret tt, mkState (_log s) (write_file path (FileJson j) (files s))
                            (ticks s) (trace s ++ [EWrite path j])).

(** [with open(path, 'r') as f: json.load(f)]. *)
Definition open_read_json (path : string) : M json :=
  fun s =>
    match files s path with
    | None => (Raise (FileNotFoundError path), s)
    | Some (FileText _) => (Raise JSONDecodeError, s)
    | Some (FileJson j) => (Ret j, s)
    end.

(** The model is typed: a loaded document that has not the shape of a log
    (or of a config) stops the program with [TypeError] where it is loaded. *)
Definition expect {A : Type} (o : option A) : M A :=
  match o with
  | Some a => ret a
  | None => raise TypeError
  end.

(** ** Formatting *)

(** [x[-n:]]: the last [n] items, all of them when there are fewer. *)
Definition last_n {A : Type} (n : nat) (l : list A) : list A :=
  skipn (length l - n) l.

(** The integer nearest to [q >= 0], a tie going to the even one. *)
Definition round_half_even (q : Q) : Z :=
  let n := Qnum q in
  let d := Zpos (Qden q) in
  let fl := (n / d)%Z in
  let twice_rest := (2 * (n mod d))%Z in
  if (twice_rest <? d)%Z then fl
  else if (d <? twice_rest)%Z then (fl + 1)%Z
  else if Z.even fl then fl else (fl + 1)%Z.

Definition string_of_nat_Z (z : Z) : string :=
  NilZero.string_of_uint (N.to_uint (Z.to_N z)).

(** [f"{q:.2f}"]: sign, integer part, a point and two digits. *)
Definition format_2f (q : Q) : string :=
  let hundredths := round_half_even (Qabs q * 100)%Q in
  (if Qlt_le_dec q 0 then "-" else "")
    ++ string_of_nat_Z (hundredths / 100) ++ "."
    ++ string_of_nat_Z ((hundredths mod 100) / 10)
    ++ string_of_nat_Z (hundredths mod 10).

(** [v == s] for a string literal [s]. *)
Definition value_eq_str (v : value) (s : string) : bool :=
  match v with
  | VStr s' => String.eqb s' s
  | _ => false
  end.

(** ** The outside world *)

(** What [requests.get] does: a response with its text, or an exception
    with its description. *)
Inductive response : Type :=
| RespOk (text : string)
| RespExn (description : string).

(** What [re.search] does: a match object, [None], or [re.error]. *)
Inductive search_result : Type :=
| Found
| NotFound
| BadPattern.

(** A pattern without metacharacters matches where it occurs literally. *)
Definition is_meta (c : ascii) : bool :=
  existsb (Ascii.eqb c)
    (list_ascii_of_string ".^$*+?{}[]|()" ++ [ascii_of_nat 92]).

Definition is_literal (pattern : string) : bool :=
  forallb (fun c => negb (is_meta c)) (list_ascii_of_string pattern).

Fixpoint occurs_in (needle hay : string) : bool :=
  String.prefix needle hay
  || match hay with
     | EmptyString => false
     | String _ hay' => occurs_in needle hay'
     end.

(** [re.search] on the patterns for which [is_literal] holds. *)
Definition literal_search (pattern text : string) : search_result :=
  if occurs_in pattern text then Found else NotFound.

(** ** The program *)

Record Log : Type := mkLog {
  logfile : string;
  verbose : bool
}.

Section Program.
(** [clock n] is what the [n]-th call of [time.time()] returns. *)
Variable clock : nat -> Q.
(** [requests_get n u] is what [requests.get(u)] does after [n] readings
    of the clock. *)
Variable requests_get : nat -> string -> response.
(** [re.search(pattern, text)]. *)
Variable re_search : string -> string -> search_result.
(** [str(datetime.datetime.fromtimestamp(t))]. *)
Variable show_datetime : Q -> string.
(** [str(v)]. *)
Variable py_str : value -> string.

Definition time_time : M Q :=
  fun s => (Ret (clock (ticks s)),
            mkState (_log s) (files s) (S (ticks s)) (trace s)).

Definition do_requests_get (u : string) : M response :=
  fun s => (Ret (requests_get (ticks s) u),
            mkState (_log s) (files s) (ticks s) (trace s ++ [EGet u])).

(** [bool(re.search(term, content))]. *)
Definition do_re_search (term content : string) : M bool :=
  emit (ESearch term content) ;;
  match re_search term content with
  | Found => ret true
  | NotFound => ret false
  | BadPattern => raise (re_error term)
  end.

(** *** class Log *)

Definition Log_save (self : Log) : M unit :=
  l <- get_log ;;
  open_write_json (logfile self) (log_to_json l).

Definition Log_init (logfile : string) (verbose : bool) : M Log :=
  let self := mkLog logfile verbose in
  set_log [] ;;
  present <- os_path_exists logfile ;;
  if negb present then
    when verbose
      (print (OutStr ("Log file " ++ logfile ++ " does not exist, creating")%string)) ;;
    Log_save self ;;
    ret self
  else
    when verbose (print (OutStr ("Checking log file " ++ logfile)%string)) ;;
    j <- open_read_json logfile ;;
    loaded <- expect (log_of_json j) ;;
    l <- get_log ;;
    set_log (dict_update l loaded) ;;
    ret self.

Definition Log_add_event (self : Log) (page : string) (e : event) : M unit :=
  t <- time_time ;;
  let e := dict_set "timestamp" (VNum t) e in
  l <- get_log ;;
  set_log (dd_append page e l) ;;
  when (verbose self) (print (OutEvent e)).

Definition Log_get_pages (self : Log) : M (list string) :=
  l <- get_log ;;
  ret (dict_keys l).

Definition Log_get_events (self : Log) (page : string) : M (list event) :=
  l <- get_log ;;
  let (events, l') := dd_getitem page l in
  set_log l' ;;
  ret events.

(** *** load_config *)

Definition load_config (configfile : string) : M config :=
  present <- os_path_exists configfile ;;
  if negb present then
    print (OutStr ("Config file " ++ configfile ++ " not found.")%string) ;;
    raise (AttributeError "module 'sys' has no attribute 'abort'")
  else
    j <- open_read_json configfile ;;
    expect (config_of_json j).

(** *** The requirement checkers *)

Fixpoint content_includes_checker (content : string) (terms : list string)
    : M bool :=
  match terms with
  | [] => ret true
  | term :: terms' =>
      found <- do_re_search term content ;;
      if negb found then
        print (OutStr content) ;;
        ret false
      else content_includes_checker content terms'
  end.

Fixpoint content_does_not_include_checker (content : string)
    (terms : list string) : M bool :=
  match terms with
  | [] => ret true
  | term :: terms' =>
      found <- do_re_search term content ;;
      if found then ret false
      else content_does_not_include_checker content terms'
  end.

Definition checker : Type := string -> list string -> M bool.

Definition get_requirement_checkers : dict checker :=
  [ ("content_includes", content_includes_checker);
    ("content_does_not_include", content_does_not_include_checker) ].

(** *** check_page *)

Definition check_requirement (log : Log) (page text : string)
    (requirement_checkers : dict checker) (requirement : requirement)
    : M unit :=
  match requirement with
  | [] => raise IndexError
  | requirement_name :: requirement_params =>
      match dict_get requirement_name requirement_checkers with
      | None => raise (KeyError requirement_name)
      | Some matcher =>
          is_valid <- matcher text requirement_params ;;
          if is_valid then
            Log_add_event log page
              [ ("type", VStr "requirement_passed");
                ("requirement", VReq requirement) ]
          else
            Log_add_event log page
              [ ("type", VStr "requirement_failed");
                ("requirement", VReq requirement) ]
      end
  end.

Definition check_page (page : string) (config : page_config) (log : Log)
    : M unit :=
  let requirement_checkers := get_requirement_checkers in
  t_start <- time_time ;;
  result <- do_requests_get (url config) ;;
  match result with
  | RespExn e =>
      Log_add_event log page
        [ ("type", VStr "response_failed"); ("error", VStr e) ]
  | RespOk text =>
      t_end <- time_time ;;
      let duration := (t_end - t_start)%Q in
      Log_add_event log page
        [ ("type", VStr "response_received"); ("duration", VNum duration) ] ;;
      for_each (requirements config)
        (check_requirement log page text requirement_checkers)
  end.

(** *** run_check *)

Definition check_pass (pages : config) (log : Log) : M unit :=
  for_each pages
    (fun item =>
       check_page (fst item) (snd item) log ;;
       Log_save log).

(** The [while True] loop of [run_check]; [fuel] bounds its passes. *)
Definition run_loop (fuel : nat) (pages : config) (log : Log) (delay : Z)
    (verbose : bool) : M unit :=
  while_true fuel
    (when verbose (print (OutStr "Starting check..")) ;;
     check_pass pages log ;;
     if (delay <? 0)%Z then ret true
     else time_sleep delay ;; ret false).

Definition run_check (fuel : nat) (configfile : string) (delay : Z)
    (logfile : string) (verbose html : bool) : M unit :=
  pages <- load_config configfile ;;
  log <- Log_init logfile verbose ;;
  when html (emit (EThreadStart logfile)) ;;
  run_loop fuel pages log delay verbose ;;
  when verbose (print (OutStr "Finished")).

(** *** status_page *)

(** The list items one event adds to [ret]. *)
Definition render_event (e : event) : M (list string) :=
  match dict_get "timestamp" e with
  | None => raise (KeyError "timestamp")
  | Some (VNum t) =>
      let ts := show_datetime t in
      match dict_get "type" e with
      | None => raise (KeyError "type")
      | Some ty =>
          if value_eq_str ty "response_failed" then
            ret [("<li>" ++ ts ++ " Response failed</li>")%string]
          else if value_eq_str ty "response_received" then
            match dict_get "duration" e with
            | None => raise (KeyError "duration")
            | Some (VNum duration) =>
                ret [("<li>" ++ ts ++ " Response received in "
                        ++ format_2f duration ++ " s</li>")%string]
            | Some (VStr _) => raise ValueError
            | Some (VReq _) => raise TypeError
            end
          else if value_eq_str ty "requirement_passed" then
            match dict_get "requirement" e with
            | None => raise (KeyError "requirement")
            | Some requirement =>
                ret [("<li>" ++ ts ++ " Requirement " ++ py_str requirement
                        ++ " passed</li>")%string]
            end
          else if value_eq_str ty "requirement_failed" then
            match dict_get "requirement" e with
            | None => raise (KeyError "requirement")
            | Some requirement =>
                ret [("<li>" ++ ts ++ " Requirement " ++ py_str requirement
                        ++ " failed</li>")%string]
            end
          else ret []
      end
  | Some _ => raise TypeError
  end.

(** [for x in xs: ret = body(ret, x)], for a loop that grows a list. *)
Fixpoint for_each_acc {A B : Type} (xs : list A) (acc : B)
    (body : B -> A -> M B) : M B :=
  match xs with
  | [] => ret acc
  | x :: xs' => acc' <- body acc x ;; for_each_acc xs' acc' body
  end.

Definition status_page (logfile : string) : M string :=
  log <- Log_init logfile false ;;
  pages <- Log_get_pages log ;;
  parts <- for_each_acc pages []
    (fun parts page =>
       let parts := parts ++ [("<p>" ++ page ++ "</p><ul>")%string] in
       events <- Log_get_events log page ;;
       parts <- for_each_acc (rev (last_n 10 events)) parts
         (fun parts e =>
            items <- render_event e ;;
            ret (parts ++ items)) ;;
       ret (parts ++ ["</ul>"])) ;;
  ret (String.concat "" parts).
End Program.

(** ** Vocabulary of the statements *)

(** A log in memory: pages are distinct and every event is a dictionary. *)
Definition log_ok (l : log_map) : Prop :=
  is_dict l /\ Forall (fun pe => Forall is_dict (snd pe)) l.


(** The events of a page, none for a page the log does not know. *)
Definition page_events (page : string) (l : log_map) : list event :=
  match dict_get page l with
  | Some events => events
  | None => []
  end.

(** The events of the data model, and the dictionary the program keeps for
    each of them once [add_event] has stamped it. *)
Inductive Event : Type :=
| ResponseFailed (timestamp : Q) (error : string)
| ResponseReceived (timestamp duration : Q)
| RequirementPassed (timestamp : Q) (r : requirement)
| RequirementFailed (timestamp : Q) (r : requirement).

Definition event_dict (ev : Event) : event :=
  match ev with
  | ResponseFailed t error =>
      [ ("type", VStr "response_failed"); ("error", VStr error);
        ("timestamp", VNum t) ]
  | ResponseReceived t duration =>
      [ ("type", VStr "response_received"); ("duration", VNum duration);
        ("timestamp", VNum t) ]
  | RequirementPassed t r =>
      [ ("type", VStr "requirement_passed"); ("requirement", VReq r);
        ("timestamp", VNum t) ]
  | RequirementFailed t r =>
      [ ("type", VStr "requirement_failed"); ("requirement", VReq r);
        ("timestamp", VNum t) ]
  end.


(** The status page as the specification words it: per page a heading and
    the ten most recent events, the most recent first. *)
Section StatusSpec.
Variable show_datetime : Q -> string.
Variable py_str : value -> string.






End StatusSpec.

(** The log the program holds for a log of the data model. *)
Definition log_dicts (l : dict (list Event)) : log_map :=
  map (fun entry => (fst entry, map event_dict (snd entry))) l.

(** The requests, saves and sleeps of a trace, in order. *)
Inductive io : Type :=
| Get (u : string)
| Save (path : string)
| Sleep (seconds : Z).

Definition io_of (e : effect) : list io :=
  match e with
  | EGet u => [Get u]
  | EWrite path _ => [Save path]
  | ESleep seconds => [Sleep seconds]
  | _ => []
  end.

Definition io_trace (tr : list effect) : list io := flat_map io_of tr.

(** One pass: every page of the config requested once, in the config's
    order, each request followed by a save of the log. *)
Definition pass_io (pages : config) (log : Log) : list io :=
  flat_map (fun item => [Get (url (snd item)); Save (logfile log)]) pages.


(** A state after some more outside effects. *)
Definition add_trace (s : state) (tr : list effect) : state :=
  mkState (_log s) (files s) (ticks s) (trace s ++ tr).

(** The searches of the terms [terms] in [content], in order. *)
Definition searches (content : string) (terms : list string) : list effect :=
  map (fun term => ESearch term content) terms.

(** What a checker answers and the effects it has, as functions of the
    text and the terms alone. *)
Section CheckerRuns.
Variable re_search : string -> string -> search_result.

Fixpoint includes_run (content : string) (terms : list string)
    : result bool * list effect :=
  match terms with
  | [] => (Ret true, [])
  | term :: terms' =>
      match re_search term content with
      | Found =>
          (fst (includes_run content terms'),
           ESearch term content :: snd (includes_run content terms'))
      | NotFound =>
          (Ret false, [ESearch term content; EPrint (OutStr content)])
      | BadPattern => (Raise (re_error term), [ESearch term content])
      end
  end.

Fixpoint excludes_run (content : string) (terms : list string)
    : result bool * list effect :=
  match terms with
  | [] => (Ret true, [])
  | term :: terms' =>
      match re_search term content with
      | Found => (Ret false, [ESearch term content])
      | NotFound =>
          (fst (excludes_run content terms'),
           ESearch term content :: snd (excludes_run content terms'))
      | BadPattern => (Raise (re_error term), [ESearch term content])
      end
  end.
End CheckerRuns.

(** The event a requirement leaves in the log. *)
Definition requirement_event (passed : bool) (t : Q) (r : requirement) : Event :=
  if passed then RequirementPassed t r else RequirementFailed t r.

(** The events of the requirements [reqs] with the outcomes [outcomes],
    stamped with consecutive readings of the clock from the [n]-th on. *)
Fixpoint requirement_events (clock : nat -> Q) (n : nat)
    (outcomes : list bool) (reqs : list requirement) : list Event :=
  match outcomes, reqs with
  | passed :: outcomes', r :: reqs' =>
      requirement_event passed (clock n) r
        :: requirement_events clock (S n) outcomes' reqs'
  | _, _ => []
  end.

(** [m[page].append(e)] for each [e] in turn. *)
Definition append_all (page : string) (events : list event) (l : log_map)
    : log_map :=
  fold_left (fun acc e => dd_append page e acc) events l.

Section Requirements.
Variable re_search : string -> string -> search_result.

(** A requirement passes on [text]: its checker is registered and
    answers [True]. *)
Definition requirement_passes (text : string) (r : requirement) : Prop :=
  exists name params matcher,
    r = name :: params
    /\ dict_get name (get_requirement_checkers re_search) = Some matcher
    /\ forall s, fst (matcher text params s) = Ret true.

(** A requirement can be evaluated: its checker is registered and its
    parameters are regular expressions [re] accepts. *)
Definition requirement_ok (r : requirement) : Prop :=
  exists name params matcher,
    r = name :: params
    /\ dict_get name (get_requirement_checkers re_search) = Some matcher
    /\ forall term text, In term params -> re_search term text <> BadPattern.

Definition config_ok (pages : config) : Prop :=
  Forall (fun item => Forall requirement_ok (requirements (snd item))) pages.

(** The checker of [r] is registered and answers [b] on [text], in any
    state, with no other effect than searches and prints. *)
Definition evaluates (text : string) (r : requirement) (b : bool) : Prop :=
  exists name params matcher tr,
    r = name :: params
    /\ dict_get name (get_requirement_checkers re_search) = Some matcher
    /\ io_trace tr = []
    /\ forall s, matcher text params s = (Ret b, add_trace s tr).
End Requirements.

(** ** A sample world *)

Module Sample.
Definition clock (n : nat) : Q := inject_Z (1700000000 + Z.of_nat n).

Definition requests_get (n : nat) (u : string) : response :=
  if String.eqb u "http://down.test" then RespExn "connection refused"
  else RespOk "Example Domain".

Definition show_datetime (t : Q) : string := format_2f t.

Definition quoted (s : string) : string := "'" ++ s ++ "'".

Definition py_str (v : value) : string :=
  match v with
  | VStr s => s
  | VNum q => format_2f q
  | VReq r => "[" ++ String.concat ", " (map quoted r) ++ "]"
  end.

Definition no_files : string -> option file := fun _ => None.

Definition start : state := mkState [] no_files 0 [].

Definition log : Log := mkLog "log.json" false.

Definition site : page_config :=
  mkPageConfig "http://example.test" [["content_includes"; "Example"]].

Definition down : page_config :=
  mkPageConfig "http://down.test" [["content_includes"; "Example"]].

Definition typo : page_config :=
  mkPageConfig "http://example.test" [["content_contains"; "Example"]].
End Sample.

Module SampleLog.
(** Fifteen responses for the page ["site"], one a second. *)
Definition fifteen : list Event :=
  map (fun n => ResponseReceived (Sample.clock n) (1 # 4)) (seq 0 15).

Definition log : dict (list Event) := [("site", fifteen)].

Definition on_disk : state :=
  mkState []
    (write_file "log.json" (FileJson (log_to_json (log_dicts log)))
       Sample.no_files)
    0 [].
End SampleLog.

(** ** Vocabulary of the further properties *)

(** Whatever [m] answers, the state it ends in is related by [R] to the
    state it started from. *)
Definition always {A : Type} (R : state -> state -> Prop) (m : M A) : Prop :=
  forall s, R s (snd (m s)).


(** The log [l'] is [l] with events added at the end of [page] only. *)
Definition appended (page : string) (l l' : log_map) : Prop :=
  (exists more, page_events page l' = page_events page l ++ more)
  /\ forall p, p <> page -> dict_get p l' = dict_get p l.


(** No request, save or sleep; no file changed; the clock not set back;
    events added to [page] only. *)
Definition quiet_step (page : string) (s s' : state) : Prop :=
  files s' = files s
  /\ ticks s <= ticks s'
  /\ appended page (_log s) (_log s')
  /\ exists tr, trace s' = trace s ++ tr /\ io_trace tr = [].

(** The time an event was stamped with. *)
Definition stamp (e : event) : option Q :=
  match dict_get "timestamp" e with
  | Some (VNum t) => Some t
  | _ => None
  end.

Fixpoint nondecreasing (ts : list Q) : Prop :=
  match ts with
  | [] => True
  | t :: ts' => Forall (fun t' => (t <= t')%Q) ts' /\ nondecreasing ts'
  end.

(** Every event is stamped, no stamp is before an earlier event's, and
    none is after [bound]. *)
Definition chronological (bound : Q) (events : list event) : Prop :=
  exists ts,
    map stamp events = map (@Some Q) ts
    /\ nondecreasing ts
    /\ Forall (fun t => (t <= bound)%Q) ts.

(** Every page of the log is chronological up to the next reading of the
    clock. *)
Definition log_chronological (clock : nat -> Q) (s : state) : Prop :=
  Forall (fun pe => chronological (clock (ticks s)) (snd pe)) (_log s).


(** No file but [path] differs between the two states. *)
Definition only_writes (path : string) (s s' : state) : Prop :=
  forall p, p <> path -> files s' p = files s p.

Module SampleRun.
(** A config file with one page, beside no log file. *)
Definition config_json : json :=
  JObj [("site",
         JObj [("url", JStr "http://example.test");
               ("requirements",
                JArr [JArr [JStr "content_includes"; JStr "Example"]])])].

Definition configured : state :=
  mkState [] (write_file "pages.json" (FileJson config_json) Sample.no_files)
    0 [].

(** A log file that is not JSON. *)
Definition broken_log : state :=
  mkState [] (write_file "log.json" (FileText "not json") Sample.no_files)
    0 [].
End SampleRun.

Module SampleChecks.
(** Two requirements on a page: the first fails on the sample response,
    the second passes. *)
Definition mixed : page_config :=
  mkPageConfig "http://example.test"
    [["content_includes"; "Missing"]; ["content_does_not_include"; "Missing"]].

(** A requirement that passes, then one whose checker does not exist. *)
Definition misspelt : page_config :=
  mkPageConfig "http://example.test"
    [["content_includes"; "Example"]; ["content_contains"; "Example"];
     ["content_includes"; "Domain"]].

(** [re.search] where ["("] is refused and the rest is literal. *)
Definition strict_search (pattern text : string) : search_result :=
  if String.eqb pattern "(" then BadPattern else literal_search pattern text.
End SampleChecks.


Module SamplePass.
Definition pages : config := [("site", Sample.site); ("typo", Sample.typo)].

(** The state when the log has just been created on disk. *)
Definition created : state :=
  mkState [] (write_file "log.json" (FileJson (JObj [])) Sample.no_files) 0 [].
End SamplePass.
(** * Facts about dictionaries *)

Unset Implicit Arguments.

Section DictFacts.
Context {V : Type}.
Implicit Types (d pairs : dict V) (k : string) (v : V).

Lemma dict_get_None_iff k d :
  dict_get k d = None <-> ~ In k (dict_keys d).
Proof.
  induction d as [|[k' v'] d IH]; simpl.
  - tauto.
  - destruct (String.eqb_spec k k') as [->|Hne].
    + split; [discriminate | intros H; exfalso; apply H; now left].
    + rewrite IH. split; intros H.
      * intros [Heq|Hin]; [now apply Hne | now apply H].
      * intros Hin. apply H. now right.
Qed.

Lemma dict_get_Some_In k v d :
  dict_get k d = Some v -> In k (dict_keys d).
Proof.
  intros H. destruct (in_dec string_dec k (dict_keys d)) as [Hin|Hnin]; trivial.
  apply dict_get_None_iff in Hnin. congruence.
Qed.

Lemma dict_get_app k d d' :
  dict_get k (d ++ d') =
  match dict_get k d with
  | Some v => Some v
  | None => dict_get k d'
  end.
Proof.
  induction d as [|[k' v'] d IH]; simpl; trivial.
  now destruct (String.eqb k k').
Qed.

Lemma dict_set_fresh k v d :
  dict_get k d = None -> dict_set k v d = d ++ [(k, v)].
Proof.
  induction d as [|[k' v'] d IH]; simpl; trivial.
  destruct (String.eqb k k'); [discriminate|].
  intros H. now rewrite IH.
Qed.

Lemma dict_get_set_same k v d : dict_get k (dict_set k v d) = Some v.
Proof.
  induction d as [|[k' v'] d IH]; simpl.
  - now rewrite String.eqb_refl.
  - destruct (String.eqb_spec k k') as [->|Hne]; simpl.
    + now rewrite String.eqb_refl.
    + apply String.eqb_neq in Hne. now rewrite Hne.
Qed.

Lemma dict_get_set_other k k' v d :
  k' <> k -> dict_get k' (dict_set k v d) = dict_get k' d.
Proof.
  intros Hne. induction d as [|[k0 v0] d IH]; simpl.
  - apply String.eqb_neq in Hne. now rewrite Hne.
  - destruct (String.eqb_spec k k0) as [->|Hne0]; simpl.
    + apply String.eqb_neq in Hne. now rewrite Hne.
    + now rewrite IH.
Qed.





(** Updating with pairs whose keys are new and distinct appends them. *)
Lemma dict_update_fresh d pairs :
  is_dict (d ++ pairs) -> dict_update d pairs = d ++ pairs.
Proof.
  unfold dict_update. revert d.
  induction pairs as [|[k v] pairs IH]; simpl; intros d Hd.
  - now rewrite app_nil_r.
  - assert (Hk : dict_get k d = None).
    { apply dict_get_None_iff. intros Hin.
      unfold is_dict, dict_keys in Hd. rewrite map_app in Hd. simpl in Hd.
      apply NoDup_remove_2 in Hd. apply Hd. apply in_or_app. now left. }
    rewrite dict_set_fresh by trivial.
    rewrite IH; rewrite <- app_assoc; trivial.
Qed.

Lemma dict_update_nil pairs : is_dict pairs -> dict_update [] pairs = pairs.
Proof. intros H. now rewrite dict_update_fresh. Qed.
End DictFacts.

(** * The log file: what is saved is what is loaded *)

Lemma all_some_map {A B : Type} (f : B -> option A) (g : A -> B) (l : list A) :
  Forall (fun a => f (g a) = Some a) l ->
  all_some (map f (map g l)) = Some l.
Proof.
  induction 1 as [|a l Ha _ IH]; simpl; trivial.
  now rewrite Ha, IH.
Qed.

Lemma value_of_to_json (v : value) : value_of_json (value_to_json v) = Some v.
Proof.
  destruct v as [s|q|r]; simpl; trivial.
  rewrite all_some_map; trivial.
  now apply Forall_forall.
Qed.

Lemma event_of_to_json (e : event) :
  is_dict e -> event_of_json (event_to_json e) = Some e.
Proof.
  intros He. unfold event_to_json, event_of_json.
  rewrite all_some_map.
  - simpl. now rewrite dict_update_nil.
  - apply Forall_forall. intros [k v] _. unfold field_of_json. simpl.
    now rewrite value_of_to_json.
Qed.

Lemma log_of_to_json (l : log_map) :
  log_ok l -> log_of_json (log_to_json l) = Some l.
Proof.
  intros [Hd He]. unfold log_to_json, log_of_json.
  rewrite all_some_map.
  - simpl. now rewrite dict_update_nil.
  - eapply Forall_impl; [|exact He]. intros [page events] Hev.
    unfold field_of_json. simpl in *.
    rewrite all_some_map; trivial.
    eapply Forall_impl; [|exact Hev]. intros e. apply event_of_to_json.
Qed.

(** * Running the monad *)

Lemma bind_Ret {A B : Type} (m : M A) (k : A -> M B) (s s' : state) (a : A) :
  m s = (Ret a, s') -> bind m k s = k a s'.
Proof. unfold bind. now intros ->. Qed.

Arguments bind_Ret {A B} m k {s s' a}.

Lemma bind_Raise {A B : Type} (m : M A) (k : A -> M B) (s s' : state) (e : exn) :
  m s = (Raise e, s') -> bind m k s = (Raise e, s').
Proof. unfold bind. now intros ->. Qed.

Lemma bind_OutOfFuel {A B : Type} (m : M A) (k : A -> M B) (s s' : state) :
  m s = (OutOfFuel, s') -> bind m k s = (OutOfFuel, s').
Proof. unfold bind. now intros ->. Qed.

Lemma write_file_same (path : string) (f : file) (fs : string -> option file) :
  write_file path f fs path = Some f.
Proof. unfold write_file. now rewrite String.eqb_refl. Qed.

Lemma write_file_other (path p : string) (f : file) (fs : string -> option file) :
  p <> path -> write_file path f fs p = fs p.
Proof.
  intros Hne. unfold write_file. apply String.eqb_neq in Hne. now rewrite Hne.
Qed.

Lemma write_file_twice (path p : string) (f : file) (fs : string -> option file) :
  write_file path f (write_file path f fs) p = write_file path f fs p.
Proof. unfold write_file. now destruct (String.eqb p path). Qed.

(** * The log *)

Lemma page_events_dd_append_same (page : string) (e : event) (l : log_map) :
  dict_get page (dd_append page e l) = Some (page_events page l ++ [e]).
Proof.
  unfold dd_append, dd_getitem, page_events.
  destruct (dict_get page l) as [events|] eqn:Hget.
  - apply dict_get_set_same.
  - apply dict_get_set_same.
Qed.

Lemma dd_append_other (page p : string) (e : event) (l : log_map) :
  p <> page -> dict_get p (dd_append page e l) = dict_get p l.
Proof.
  intros Hne. unfold dd_append, dd_getitem.
  destruct (dict_get page l) as [events|] eqn:Hget.
  - now apply dict_get_set_other.
  - rewrite dict_get_set_other by trivial.
    rewrite dict_get_app. destruct (dict_get p l); trivial.
    simpl. apply String.eqb_neq in Hne. now rewrite Hne.
Qed.


Lemma Forall_dict_set {V : Type} (P : V -> Prop) (k : string) (v : V)
    (d : dict V) :
  Forall (fun kv => P (snd kv)) d -> P v ->
  Forall (fun kv => P (snd kv)) (dict_set k v d).
Proof.
  intros Hd Hv. induction Hd as [|[k' v'] d Hk Hd IH]; simpl.
  - now repeat constructor.
  - destruct (String.eqb k k'); constructor; trivial.
Qed.

Lemma Forall_dict_get {V : Type} (P : V -> Prop) (k : string) (v : V)
    (d : dict V) :
  Forall (fun kv => P (snd kv)) d -> dict_get k d = Some v -> P v.
Proof.
  induction 1 as [|[k' v'] d Hk _ IH]; simpl; [discriminate|].
  destruct (String.eqb k k'); [|trivial].
  intros [= <-]. exact Hk.
Qed.



Lemma Log_save_eq (self : Log) (s : state) :
  Log_save self s =
  (Ret tt,
   mkState (_log s)
     (write_file (logfile self) (FileJson (log_to_json (_log s))) (files s))
     (ticks s)
     (trace s ++ [EWrite (logfile self) (log_to_json (_log s))])).
Proof. reflexivity. Qed.

Lemma Log_init_absent (path : string) (v : bool) (s : state) :
  files s path = None ->
  Log_init path v s =
  (Ret (mkLog path v),
   mkState [] (write_file path (FileJson (JObj [])) (files s)) (ticks s)
     ((trace s
         ++ (if v then [EPrint (OutStr ("Log file " ++ path
                                         ++ " does not exist, creating")%string)]
             else []))
        ++ [EWrite path (JObj [])])).
Proof.
  intros Hf. unfold Log_init, bind, set_log, os_path_exists. simpl.
  rewrite Hf. simpl. destruct v; simpl; trivial.
  now rewrite app_nil_r.
Qed.

Lemma Log_init_present (path : string) (v : bool) (s : state) (j : json)
    (l : log_map) :
  files s path = Some (FileJson j) ->
  log_of_json j = Some l ->
  Log_init path v s =
  (Ret (mkLog path v),
   mkState (dict_update [] l) (files s) (ticks s)
     (trace s
        ++ (if v then [EPrint (OutStr ("Checking log file " ++ path)%string)]
            else []))).
Proof.
  intros Hf Hj. unfold Log_init, bind, set_log, os_path_exists, open_read_json.
  simpl. rewrite Hf. simpl. rewrite ?Hf. destruct v; simpl; rewrite ?Hf, Hj; simpl.
  all: rewrite ?app_nil_r; trivial.
Qed.

Section LogFacts.
Variable clock : nat -> Q.

Lemma Log_add_event_eq (self : Log) (page : string) (e : event) (s : state) :
  Log_add_event clock self page e s =
  (Ret tt,
   mkState
     (dd_append page (dict_set "timestamp" (VNum (clock (ticks s))) e)
        (_log s))
     (files s) (S (ticks s))
     (trace s
        ++ (if verbose self
            then [EPrint (OutEvent
                            (dict_set "timestamp" (VNum (clock (ticks s))) e))]
            else []))).
Proof.
  unfold Log_add_event, bind, time_time, get_log, set_log, when. simpl.
  destruct (verbose self); simpl; trivial. now rewrite app_nil_r.
Qed.
End LogFacts.

(** C4.  Whatever the log holds, a second [save()] right after a first one
    writes the same document to the same file: both calls return, the file
    holds the serialised log after the first, no file differs after the
    second, and the second write carries the very document the first did. *)
Theorem C4_save_twice_same_content (self : Log) (s : state) :
  let s1 := snd (Log_save self s) in
  let s2 := snd (Log_save self s1) in
  fst (Log_save self s) = Ret tt
  /\ fst (Log_save self s1) = Ret tt
  /\ files s1 (logfile self) = Some (FileJson (log_to_json (_log s)))
  /\ (forall path, files s2 path = files s1 path)
  /\ trace s1 = trace s ++ [EWrite (logfile self) (log_to_json (_log s))]
  /\ trace s2 = trace s1 ++ [EWrite (logfile self) (log_to_json (_log s))]
  /\ _log s2 = _log s.
Proof.
  rewrite !Log_save_eq. simpl. repeat split.
  - apply write_file_same.
  - intros path. apply write_file_twice.
Qed.

(** C10.  [get_events] on a page the log does not hold returns the empty
    list and inserts the page: [get_pages()] lists it from then on (last,
    after the pages known before) and the next [save()] writes it with an
    empty array of events. *)
Theorem C10_get_events_inserts_page (self : Log) (page : string) (s : state) :
  dict_get page (_log s) = None ->
  ~ In page (dict_keys (_log s))
  /\ exists s1,
       Log_get_events self page s = (Ret [], s1)
       /\ _log s1 = _log s ++ [(page, [])]
       /\ files s1 = files s
       /\ Log_get_pages self s1 = (Ret (dict_keys (_log s) ++ [page]), s1)
       /\ In page (dict_keys (_log s1))
       /\ exists fields s2,
            log_to_json (_log s) = JObj fields
            /\ Log_save self s1 = (Ret tt, s2)
            /\ files s2 (logfile self)
               = Some (FileJson (JObj (fields ++ [(page, JArr [])]))).
Proof.
  intros Hget. split; [now apply dict_get_None_iff|].
  unfold Log_get_events, Log_get_pages, bind, get_log, set_log, dd_getitem.
  simpl. rewrite Hget. simpl.
  eexists. split; [reflexivity|]. simpl.
  assert (Hkeys : dict_keys (_log s ++ [(page, [])])
                  = dict_keys (_log s) ++ [page]).
  { unfold dict_keys. now rewrite map_app. }
  repeat split.
  - now rewrite Hkeys.
  - rewrite Hkeys. apply in_or_app. right. now left.
  - eexists. eexists. split; [reflexivity|].
    rewrite Log_save_eq. split; [reflexivity|]. cbn [files _log].
    rewrite write_file_same. unfold log_to_json. now rewrite map_app.
Qed.

Lemma C10_get_events_inserts_page_witness :
  dict_get "site" (_log Sample.start) = None
  /\ exists s1,
       Log_get_events Sample.log "site" Sample.start = (Ret [], s1)
       /\ _log s1 = [("site", [])].
Proof.
  split; [reflexivity|].
  destruct (C10_get_events_inserts_page Sample.log "site" Sample.start eq_refl)
    as (_ & s1 & Hev & Hlog & _).
  exists s1. split; [exact Hev | exact Hlog].
Defined.




Lemma Sample_clock_monotone n : (Sample.clock n <= Sample.clock (S n))%Q.
Proof.
  unfold Sample.clock. rewrite <- Zle_Qle. lia.
Qed.


(** * The config loader *)



(** * The requirement checkers *)

Section Checkers.
Variable re_search : string -> string -> search_result.

Lemma do_re_search_eq (term content : string) (s : state) :
  do_re_search re_search term content s =
  (match re_search term content with
   | Found => Ret true
   | NotFound => Ret false
   | BadPattern => Raise (re_error term)
   end, add_trace s [ESearch term content]).
Proof.
  unfold do_re_search, bind, emit, add_trace. simpl.
  now destruct (re_search term content).
Qed.

Lemma add_trace_app (s : state) (tr tr' : list effect) :
  add_trace (add_trace s tr) tr' = add_trace s (tr ++ tr').
Proof. unfold add_trace. simpl. now rewrite app_assoc. Qed.

Lemma add_trace_nil (s : state) : add_trace s [] = s.
Proof. destruct s. unfold add_trace. simpl. now rewrite app_nil_r. Qed.

Lemma includes_all_found (content : string) (terms : list string) (s : state) :
  Forall (fun term => re_search term content = Found) terms ->
  content_includes_checker re_search content terms s
  = (Ret true, add_trace s (searches content terms)).
Proof.
  intros H. revert s. induction H as [|term terms Hterm _ IH]; intros s.
  - simpl. unfold ret. now rewrite add_trace_nil.
  - simpl. unfold bind at 1. rewrite do_re_search_eq, Hterm. simpl negb.
    cbv iota. rewrite IH, add_trace_app. reflexivity.
Qed.

Lemma includes_first_missing (content term : string)
    (before after : list string) (s : state) :
  Forall (fun term => re_search term content = Found) before ->
  re_search term content = NotFound ->
  content_includes_checker re_search content (before ++ term :: after) s
  = (Ret false,
     add_trace s (searches content (before ++ [term])
                    ++ [EPrint (OutStr content)])).
Proof.
  intros H Hterm. revert s. induction H as [|t before Ht _ IH]; intros s.
  - simpl. unfold bind at 1. rewrite do_re_search_eq, Hterm. simpl.
    unfold bind, print, emit, ret, add_trace. simpl.
    now rewrite <- app_assoc.
  - simpl. unfold bind at 1. rewrite do_re_search_eq, Ht. simpl negb.
    cbv iota. rewrite IH, add_trace_app. reflexivity.
Qed.

Lemma includes_true_inv (content : string) (terms : list string) (s : state) :
  fst (content_includes_checker re_search content terms s) = Ret true ->
  Forall (fun term => re_search term content = Found) terms.
Proof.
  revert s. induction terms as [|term terms IH]; intros s; [constructor|].
  simpl. unfold bind at 1. rewrite do_re_search_eq.
  destruct (re_search term content) eqn:Hterm; simpl.
  - intros H. constructor; trivial. eapply IH; eauto.
  - discriminate.
  - discriminate.
Qed.

Lemma excludes_none_found (content : string) (terms : list string) (s : state) :
  Forall (fun term => re_search term content = NotFound) terms ->
  content_does_not_include_checker re_search content terms s
  = (Ret true, add_trace s (searches content terms)).
Proof.
  intros H. revert s. induction H as [|term terms Hterm _ IH]; intros s.
  - simpl. unfold ret. now rewrite add_trace_nil.
  - simpl. unfold bind at 1. rewrite do_re_search_eq, Hterm.
    cbv iota. rewrite IH, add_trace_app. reflexivity.
Qed.

Lemma excludes_first_found (content term : string)
    (before after : list string) (s : state) :
  Forall (fun term => re_search term content = NotFound) before ->
  re_search term content = Found ->
  content_does_not_include_checker re_search content
    (before ++ term :: after) s
  = (Ret false, add_trace s (searches content (before ++ [term]))).
Proof.
  intros H Hterm. revert s. induction H as [|t before Ht _ IH]; intros s.
  - simpl. unfold bind at 1. now rewrite do_re_search_eq, Hterm.
  - simpl. unfold bind at 1. rewrite do_re_search_eq, Ht.
    cbv iota. rewrite IH, add_trace_app. reflexivity.
Qed.

Lemma excludes_true_inv (content : string) (terms : list string) (s : state) :
  fst (content_does_not_include_checker re_search content terms s) = Ret true ->
  Forall (fun term => re_search term content = NotFound) terms.
Proof.
  revert s. induction terms as [|term terms IH]; intros s; [constructor|].
  simpl. unfold bind at 1. rewrite do_re_search_eq.
  destruct (re_search term content) eqn:Hterm; simpl.
  - discriminate.
  - intros H. constructor; trivial. eapply IH; eauto.
  - discriminate.
Qed.
End Checkers.

(** C7.  [content_includes] returns [True] exactly when [re.search] finds
    every parameter in the text.  It returns [False] at the first parameter
    that is not found: the searches stop there, whatever parameters follow,
    and the text is printed.  On ["hello world"] the literal pattern
    ["hello"] passes and ["xyz"] fails. *)
Theorem C7_content_includes (re_search : string -> string -> search_result)
    (content : string) (terms : list string) (s : state) :
  (fst (content_includes_checker re_search content terms s) = Ret true
   <-> Forall (fun term => re_search term content = Found) terms)
  /\ (forall before term after,
        terms = before ++ term :: after ->
        Forall (fun t => re_search t content = Found) before ->
        re_search term content = NotFound ->
        content_includes_checker re_search content terms s
        = (Ret false,
           add_trace s (searches content (before ++ [term])
                          ++ [EPrint (OutStr content)])))
  /\ is_literal "hello" = true
  /\ is_literal "xyz" = true
  /\ fst (content_includes_checker literal_search "hello world" ["hello"] s)
     = Ret true
  /\ fst (content_includes_checker literal_search "hello world" ["xyz"] s)
     = Ret false.
Proof.
  split; [split|split].
  - apply includes_true_inv.
  - intros H. now rewrite includes_all_found.
  - intros before term after -> Hbefore Hterm.
    now apply includes_first_missing.
  - repeat split.
Qed.

Lemma C7_content_includes_witness :
  content_includes_checker literal_search "hello world"
    ["hello"; "xyz"; "(unbalanced"] Sample.start
  = (Ret false,
     add_trace Sample.start
       [ESearch "hello" "hello world"; ESearch "xyz" "hello world";
        EPrint (OutStr "hello world")]).
Proof.
  apply (proj1 (proj2 (C7_content_includes literal_search "hello world"
                         ["hello"; "xyz"; "(unbalanced"] Sample.start))
           ["hello"] "xyz" ["(unbalanced"]).
  - reflexivity.
  - repeat constructor.
  - reflexivity.
Defined.

(** C8.  [content_does_not_include] returns [True] exactly when [re.search]
    finds none of the parameters in the text.  It returns [False] at the
    first parameter that is found: the searches stop there, whatever
    parameters follow.  On ["hello world"] the literal pattern ["xyz"]
    passes and ["hello"] fails. *)
Theorem C8_content_does_not_include
    (re_search : string -> string -> search_result)
    (content : string) (terms : list string) (s : state) :
  (fst (content_does_not_include_checker re_search content terms s) = Ret true
   <-> Forall (fun term => re_search term content = NotFound) terms)
  /\ (forall before term after,
        terms = before ++ term :: after ->
        Forall (fun t => re_search t content = NotFound) before ->
        re_search term content = Found ->
        content_does_not_include_checker re_search content terms s
        = (Ret false, add_trace s (searches content (before ++ [term]))))
  /\ is_literal "hello" = true
  /\ is_literal "xyz" = true
  /\ fst (content_does_not_include_checker literal_search "hello world"
            ["xyz"] s) = Ret true
  /\ fst (content_does_not_include_checker literal_search "hello world"
            ["hello"] s) = Ret false.
Proof.
  split; [split|split].
  - apply excludes_true_inv.
  - intros H. now rewrite excludes_none_found.
  - intros before term after -> Hbefore Hterm.
    now apply excludes_first_found.
  - repeat split.
Qed.

Lemma C8_content_does_not_include_witness :
  content_does_not_include_checker literal_search "hello world"
    ["xyz"; "hello"; "(unbalanced"] Sample.start
  = (Ret false,
     add_trace Sample.start
       [ESearch "xyz" "hello world"; ESearch "hello" "hello world"]).
Proof.
  apply (proj1 (proj2 (C8_content_does_not_include literal_search "hello world"
                         ["xyz"; "hello"; "(unbalanced"] Sample.start))
           ["xyz"] "hello" ["(unbalanced"]).
  - reflexivity.
  - repeat constructor.
  - reflexivity.
Defined.

Section CheckerRunFacts.
Variable re_search : string -> string -> search_result.

Lemma includes_checker_run (content : string) (terms : list string)
    (s : state) :
  content_includes_checker re_search content terms s
  = (fst (includes_run re_search content terms),
     add_trace s (snd (includes_run re_search content terms))).
Proof.
  revert s. induction terms as [|term terms IH]; intros s.
  - simpl. unfold ret. now rewrite add_trace_nil.
  - simpl. unfold bind at 1. rewrite do_re_search_eq.
    destruct (re_search term content); simpl.
    + now rewrite IH, add_trace_app.
    + unfold bind, print, emit, ret, add_trace. simpl.
      now rewrite <- app_assoc.
    + reflexivity.
Qed.

Lemma excludes_checker_run (content : string) (terms : list string)
    (s : state) :
  content_does_not_include_checker re_search content terms s
  = (fst (excludes_run re_search content terms),
     add_trace s (snd (excludes_run re_search content terms))).
Proof.
  revert s. induction terms as [|term terms IH]; intros s.
  - simpl. unfold ret. now rewrite add_trace_nil.
  - simpl. unfold bind at 1. rewrite do_re_search_eq.
    destruct (re_search term content); simpl; trivial.
    now rewrite IH, add_trace_app.
Qed.

Lemma includes_run_quiet (content : string) (terms : list string) :
  io_trace (snd (includes_run re_search content terms)) = [].
Proof.
  induction terms as [|term terms IH]; simpl; trivial.
  now destruct (re_search term content).
Qed.

Lemma excludes_run_quiet (content : string) (terms : list string) :
  io_trace (snd (excludes_run re_search content terms)) = [].
Proof.
  induction terms as [|term terms IH]; simpl; trivial.
  now destruct (re_search term content).
Qed.

Lemma includes_run_answers (content : string) (terms : list string) :
  (forall term, In term terms -> re_search term content <> BadPattern) ->
  exists b, fst (includes_run re_search content terms) = Ret b.
Proof.
  induction terms as [|term terms IH]; simpl; intros H.
  - now exists true.
  - destruct (re_search term content) eqn:Hterm; simpl.
    + apply IH. intros t Ht. apply H. now right.
    + now exists false.
    + exfalso. apply (H term); auto.
Qed.

Lemma excludes_run_answers (content : string) (terms : list string) :
  (forall term, In term terms -> re_search term content <> BadPattern) ->
  exists b, fst (excludes_run re_search content terms) = Ret b.
Proof.
  induction terms as [|term terms IH]; simpl; intros H.
  - now exists true.
  - destruct (re_search term content) eqn:Hterm; simpl.
    + now exists false.
    + apply IH. intros t Ht. apply H. now right.
    + exfalso. apply (H term); auto.
Qed.

(** The registry holds the two checkers and nothing else. *)
Lemma registered_checker (name : string) (matcher : checker) :
  dict_get name (get_requirement_checkers re_search) = Some matcher ->
  matcher = content_includes_checker re_search
  \/ matcher = content_does_not_include_checker re_search.
Proof.
  unfold get_requirement_checkers. simpl.
  destruct (String.eqb name "content_includes").
  - intros [= <-]. now left.
  - destruct (String.eqb name "content_does_not_include"); [|discriminate].
    intros [= <-]. now right.
Qed.

(** A registered checker only searches and prints, and what it answers
    does not depend on the state. *)
Lemma registered_checker_run (name : string) (matcher : checker)
    (text : string) (params : list string) :
  dict_get name (get_requirement_checkers re_search) = Some matcher ->
  exists r tr,
    io_trace tr = []
    /\ forall s, matcher text params s = (r, add_trace s tr).
Proof.
  intros Hreg. destruct (registered_checker name matcher Hreg) as [->| ->].
  - eexists. eexists. split; [apply includes_run_quiet|].
    intros s. apply includes_checker_run.
  - eexists. eexists. split; [apply excludes_run_quiet|].
    intros s. apply excludes_checker_run.
Qed.
End CheckerRunFacts.

(** * Appending to the log *)

Lemma io_trace_app (tr tr' : list effect) :
  io_trace (tr ++ tr') = io_trace tr ++ io_trace tr'.
Proof. unfold io_trace. apply flat_map_app. Qed.

Lemma page_events_append_all (page : string) (events : list event)
    (l : log_map) :
  events <> [] ->
  dict_get page (append_all page events l) = Some (page_events page l ++ events).
Proof.
  unfold append_all. revert l.
  induction events as [|e events IH]; intros l Hne; [congruence|].
  simpl. destruct events as [|e' events].
  - simpl. apply page_events_dd_append_same.
  - rewrite IH by discriminate. unfold page_events at 1.
    rewrite page_events_dd_append_same. now rewrite <- app_assoc.
Qed.

Lemma page_events_append_all_eq (page : string) (events : list event)
    (l : log_map) :
  page_events page (append_all page events l) = page_events page l ++ events.
Proof.
  destruct events as [|e events].
  - simpl. now rewrite app_nil_r.
  - unfold page_events at 1. now rewrite page_events_append_all.
Qed.

Lemma append_all_other (page p : string) (events : list event) (l : log_map) :
  p <> page -> dict_get p (append_all page events l) = dict_get p l.
Proof.
  intros Hne. unfold append_all. revert l.
  induction events as [|e events IH]; intros l; simpl; trivial.
  rewrite IH. now apply dd_append_other.
Qed.

Lemma append_all_app (page : string) (events events' : list event)
    (l : log_map) :
  append_all page (events ++ events') l
  = append_all page events' (append_all page events l).
Proof. unfold append_all. apply fold_left_app. Qed.

(** * Checking a page *)

Section CheckPage.
Variable clock : nat -> Q.
Variable requests_get : nat -> string -> response.
Variable re_search : string -> string -> search_result.

Let registry := get_requirement_checkers re_search.

Lemma passes_evaluates (text : string) (r : requirement) :
  requirement_passes re_search text r -> evaluates re_search text r true.
Proof.
  intros (name & params & matcher & -> & Hreg & Htrue).
  destruct (registered_checker_run re_search name matcher text params Hreg)
    as (res & tr & Hquiet & Hrun).
  exists name, params, matcher, tr. repeat split; trivial.
  intros s. specialize (Htrue s). rewrite Hrun in *. simpl in Htrue.
  now subst res.
Qed.

Lemma ok_evaluates (text : string) (r : requirement) :
  requirement_ok re_search r -> exists b, evaluates re_search text r b.
Proof.
  intros (name & params & matcher & -> & Hreg & Hgood).
  assert (Hans : exists b tr,
             io_trace tr = []
             /\ forall s, matcher text params s = (Ret b, add_trace s tr)).
  { destruct (registered_checker re_search name matcher Hreg) as [->| ->].
    - destruct (includes_run_answers re_search text params) as [b Hb].
      { intros term Hin. now apply Hgood. }
      exists b. eexists. split; [apply includes_run_quiet|].
      intros s. now rewrite includes_checker_run, Hb.
    - destruct (excludes_run_answers re_search text params) as [b Hb].
      { intros term Hin. now apply Hgood. }
      exists b. eexists. split; [apply excludes_run_quiet|].
      intros s. now rewrite excludes_checker_run, Hb. }
  destruct Hans as (b & tr & Hquiet & Hrun).
  exists b, name, params, matcher, tr. now repeat split.
Qed.

Lemma check_requirement_evaluates (log : Log) (page text : string)
    (r : requirement) (b : bool) (s : state) :
  evaluates re_search text r b ->
  exists tr,
    io_trace tr = []
    /\ check_requirement clock log page text registry r s
       = (Ret tt,
          mkState
            (dd_append page
               (event_dict (requirement_event b (clock (ticks s)) r))
               (_log s))
            (files s) (S (ticks s)) (trace s ++ tr)).
Proof.
  intros (name & params & matcher & tr & -> & Hreg & Hquiet & Hrun).
  unfold check_requirement. fold registry in Hreg. rewrite Hreg.
  unfold bind at 1. rewrite Hrun.
  destruct b; rewrite Log_add_event_eq; cbn [add_trace _log files ticks trace];
    eexists; (split; [|rewrite <- app_assoc; reflexivity]);
    rewrite io_trace_app, Hquiet; now destruct (verbose log).
Qed.

Lemma for_each_requirements (log : Log) (page text : string)
    (reqs : list requirement) (outcomes : list bool) (s : state) :
  Forall2 (evaluates re_search text) reqs outcomes ->
  exists s',
    for_each reqs (check_requirement clock log page text registry) s
    = (Ret tt, s')
    /\ _log s'
       = append_all page
           (map event_dict (requirement_events clock (ticks s) outcomes reqs))
           (_log s)
    /\ files s' = files s
    /\ ticks s' = length reqs + ticks s
    /\ exists tr, trace s' = trace s ++ tr /\ io_trace tr = [].
Proof.
  intros H. revert s. induction H as [|r b reqs outcomes Hr _ IH]; intros s.
  - exists s. repeat split. exists []. now rewrite app_nil_r.
  - destruct (check_requirement_evaluates log page text r b s Hr)
      as (tr & Hquiet & Hrun).
    cbn [for_each]. erewrite bind_Ret by exact Hrun.
    match goal with |- context [for_each reqs _ ?s1] =>
      destruct (IH s1) as (s' & Hfor & Hlog & Hfiles & Hticks & tr' & Htr & Hq)
    end.
    cbn [_log files ticks trace] in *.
    exists s'. repeat split; trivial.
    + rewrite Hticks. cbn [length]. lia.
    + exists (tr ++ tr'). rewrite Htr, io_trace_app, Hquiet, Hq.
      now rewrite app_assoc.
Qed.

Lemma check_page_transport_failure (page : string) (config : page_config)
    (log : Log) (s : state) (description : string) :
  requests_get (S (ticks s)) (url config) = RespExn description ->
  check_page clock requests_get re_search page config log s
  = (Ret tt,
     mkState
       (dd_append page
          (event_dict (ResponseFailed (clock (S (ticks s))) description))
          (_log s))
       (files s) (S (S (ticks s)))
       (trace s ++ EGet (url config)
          :: (if verbose log
              then [EPrint (OutEvent (event_dict
                      (ResponseFailed (clock (S (ticks s))) description)))]
              else []))).
Proof.
  intros Hget. unfold check_page.
  unfold bind at 1. cbn [time_time _log files ticks trace].
  unfold bind at 1. cbn [do_requests_get _log files ticks trace].
  rewrite Hget. rewrite Log_add_event_eq. cbn [_log files ticks trace].
  rewrite <- app_assoc. reflexivity.
Qed.

Lemma check_page_response (page : string) (config : page_config)
    (log : Log) (s : state) (text : string) (outcomes : list bool) :
  requests_get (S (ticks s)) (url config) = RespOk text ->
  Forall2 (evaluates re_search text) (requirements config) outcomes ->
  exists s',
    check_page clock requests_get re_search page config log s = (Ret tt, s')
    /\ _log s'
       = append_all page
           (map event_dict
              (ResponseReceived (clock (S (S (ticks s))))
                 (clock (S (ticks s)) - clock (ticks s))
               :: requirement_events clock (S (S (S (ticks s)))) outcomes
                    (requirements config)))
           (_log s)
    /\ files s' = files s
    /\ ticks s' = length (requirements config) + S (S (S (ticks s)))
    /\ exists tr, trace s' = trace s ++ EGet (url config) :: tr
                  /\ io_trace tr = [].
Proof.
  intros Hget Hreqs. unfold check_page.
  unfold bind at 1. cbn [time_time _log files ticks trace].
  unfold bind at 1. cbn [do_requests_get _log files ticks trace].
  rewrite Hget.
  unfold bind at 1. cbn [time_time _log files ticks trace].
  unfold bind at 1. rewrite Log_add_event_eq.
  cbn [_log files ticks trace].
  match goal with |- context [for_each _ _ ?s1] =>
    destruct (for_each_requirements log page text (requirements config)
                outcomes s1 Hreqs)
      as (s' & Hfor & Hlog & Hfiles & Hticks & tr & Htr & Hq)
  end.
  fold registry. rewrite Hfor. cbn [_log files ticks trace] in *.
  exists s'. repeat split; trivial.
  eexists. rewrite Htr. rewrite <- !app_assoc. split; [reflexivity|].
  rewrite io_trace_app, Hq. now destruct (verbose log).
Qed.
End CheckPage.

Lemma requirement_events_length (clock : nat -> Q) (n : nat)
    (outcomes : list bool) (reqs : list requirement) :
  length outcomes = length reqs ->
  length (requirement_events clock n outcomes reqs) = length reqs.
Proof.
  revert n reqs. induction outcomes as [|b outcomes IH]; intros n [|r reqs];
    simpl; try discriminate; trivial.
  intros [= H]. now rewrite IH.
Qed.

Lemma all_pass_evaluates (re_search : string -> string -> search_result)
    (text : string) (reqs : list requirement) :
  Forall (requirement_passes re_search text) reqs ->
  Forall2 (evaluates re_search text) reqs (repeat true (length reqs)).
Proof.
  induction 1 as [|r reqs Hr _ IH]; simpl; constructor; trivial.
  now apply passes_evaluates.
Qed.

Lemma all_ok_evaluates (re_search : string -> string -> search_result)
    (text : string) (reqs : list requirement) :
  Forall (requirement_ok re_search) reqs ->
  exists outcomes, Forall2 (evaluates re_search text) reqs outcomes.
Proof.
  induction 1 as [|r reqs Hr _ [outcomes IH]].
  - exists []. constructor.
  - destruct (ok_evaluates re_search text r Hr) as [b Hb].
    exists (b :: outcomes). now constructor.
Qed.

(** C2.  When [requests.get] raises, [check_page] returns without raising;
    the page's log grows by the one [response_failed] event that carries
    the description of the error, no other page's log changes and no file
    is written; the only outside effects are the request and, in verbose
    mode, the print of the event: no requirement is looked at, so the
    outcome is the same whatever the requirements are; and the pass goes on
    with the save and the remaining pages. *)
Theorem C2_transport_failure (clock : nat -> Q)
    (requests_get : nat -> string -> response)
    (re_search : string -> string -> search_result)
    (page : string) (config : page_config) (log : Log) (s : state)
    (description : string) :
  requests_get (S (ticks s)) (url config) = RespExn description ->
  let failed := event_dict (ResponseFailed (clock (S (ticks s))) description) in
  exists s',
    check_page clock requests_get re_search page config log s = (Ret tt, s')
    /\ page_events page (_log s') = page_events page (_log s) ++ [failed]
    /\ dict_get "type" failed = Some (VStr "response_failed")
    /\ dict_get "error" failed = Some (VStr description)
    /\ (forall p, p <> page -> dict_get p (_log s') = dict_get p (_log s))
    /\ files s' = files s
    /\ trace s'
       = trace s ++ EGet (url config)
           :: (if verbose log then [EPrint (OutEvent failed)] else [])
    /\ (forall reqs,
          check_page clock requests_get re_search page
            (mkPageConfig (url config) reqs) log s = (Ret tt, s'))
    /\ (forall rest,
          check_pass clock requests_get re_search ((page, config) :: rest) log s
          = check_pass clock requests_get re_search rest log
              (snd (Log_save log s'))).
Proof.
  intros Hget failed. eexists.
  split; [exact (check_page_transport_failure clock requests_get re_search
                   page config log s description Hget)|].
  cbn [_log files trace]. repeat split.
  - unfold page_events at 1. now rewrite page_events_dd_append_same.
  - intros p Hp. now apply dd_append_other.
  - intros reqs.
    exact (check_page_transport_failure clock requests_get re_search page
             (mkPageConfig (url config) reqs) log s description Hget).
  - intros rest. unfold check_pass. cbn [for_each fst snd].
    unfold bind at 1. unfold bind at 1.
    rewrite (check_page_transport_failure clock requests_get re_search page
               config log s description Hget).
    rewrite Log_save_eq. reflexivity.
Qed.

Lemma C2_transport_failure_witness :
  exists s',
    check_page Sample.clock Sample.requests_get literal_search "down"
      Sample.down Sample.log Sample.start = (Ret tt, s')
    /\ page_events "down" (_log s')
       = [event_dict (ResponseFailed (Sample.clock 1) "connection refused")].
Proof.
  destruct (C2_transport_failure Sample.clock Sample.requests_get
              literal_search "down" Sample.down Sample.log Sample.start
              "connection refused" eq_refl)
    as (s' & Hrun & Hlog & _).
  exists s'. split; [exact Hrun | exact Hlog].
Defined.

(** C1 as stated fails: the sample page has one requirement, its request
    succeeds and the requirement passes, and the check appends two events
    to the page's log, not 1 + (1 + 1). *)
Lemma C1_counterexample :
  Sample.requests_get 1 (url Sample.site) = RespOk "Example Domain"
  /\ Forall (requirement_passes literal_search "Example Domain")
       (requirements Sample.site)
  /\ exists s',
       check_page Sample.clock Sample.requests_get literal_search "site"
         Sample.site Sample.log Sample.start = (Ret tt, s')
       /\ length (page_events "site" (_log s'))
          = length (page_events "site" (_log Sample.start)) + 2
       /\ length (page_events "site" (_log s'))
          <> length (page_events "site" (_log Sample.start))
             + (1 + (1 + length (requirements Sample.site))).
Proof.
  split; [reflexivity|]. split.
  - repeat constructor.
    exists "content_includes", ["Example"],
      (content_includes_checker literal_search).
    repeat split.
  - eexists. split; [vm_compute; reflexivity|].
    split; [reflexivity|]. simpl. discriminate.
Qed.

(** C1, amended.  When the request succeeds and every requirement passes,
    [check_page] returns and appends to the page's log exactly
    1 + number_of_requirements events: one [response_received] with the
    elapsed time, then one [requirement_passed] per requirement, in order.
    When the request itself fails it appends the one [response_failed]
    event. *)
Theorem C1_events_per_check (clock : nat -> Q)
    (requests_get : nat -> string -> response)
    (re_search : string -> string -> search_result)
    (page : string) (config : page_config) (log : Log) (s : state) :
  (forall text,
     requests_get (S (ticks s)) (url config) = RespOk text ->
     Forall (requirement_passes re_search text) (requirements config) ->
     exists s',
       check_page clock requests_get re_search page config log s = (Ret tt, s')
       /\ page_events page (_log s')
          = page_events page (_log s)
              ++ map event_dict
                   (ResponseReceived (clock (S (S (ticks s))))
                      (clock (S (ticks s)) - clock (ticks s))
                    :: requirement_events clock (S (S (S (ticks s))))
                         (repeat true (length (requirements config)))
                         (requirements config))
       /\ length (page_events page (_log s'))
          = length (page_events page (_log s))
            + (1 + length (requirements config)))
  /\ (forall description,
        requests_get (S (ticks s)) (url config) = RespExn description ->
        exists s',
          check_page clock requests_get re_search page config log s
          = (Ret tt, s')
          /\ page_events page (_log s')
             = page_events page (_log s)
                 ++ [event_dict
                       (ResponseFailed (clock (S (ticks s))) description)]
          /\ length (page_events page (_log s'))
             = length (page_events page (_log s)) + 1).
Proof.
  split.
  - intros text Hget Hpass.
    destruct (check_page_response clock requests_get re_search page config log
                s text _ Hget (all_pass_evaluates re_search text _ Hpass))
      as (s' & Hrun & Hlog & _).
    exists s'. split; trivial.
    rewrite Hlog, page_events_append_all_eq. split; trivial.
    rewrite length_app, length_map. cbn [length].
    rewrite requirement_events_length; trivial.
    apply repeat_length.
  - intros description Hget. eexists.
    split; [exact (check_page_transport_failure clock requests_get re_search
                     page config log s description Hget)|].
    cbn [_log]. unfold page_events at 1 3.
    rewrite page_events_dd_append_same. split; trivial.
    rewrite length_app. reflexivity.
Qed.

Lemma C1_events_per_check_witness :
  exists s',
    check_page Sample.clock Sample.requests_get literal_search "site"
      Sample.site Sample.log Sample.start = (Ret tt, s')
    /\ length (page_events "site" (_log s'))
       = length (page_events "site" (_log Sample.start))
         + (1 + length (requirements Sample.site)).
Proof.
  destruct (proj1 (C1_events_per_check Sample.clock Sample.requests_get
                     literal_search "site" Sample.site Sample.log Sample.start)
              "Example Domain" eq_refl)
    as (s' & Hrun & _ & Hlen).
  - repeat constructor.
    exists "content_includes", ["Example"],
      (content_includes_checker literal_search).
    repeat split.
  - exists s'. split; [exact Hrun | exact Hlen].
Defined.

(** * The run loop *)

Section RunLoop.
Variable clock : nat -> Q.
Variable requests_get : nat -> string -> response.
Variable re_search : string -> string -> search_result.

(** A check whose requirements can be evaluated returns, after one
    request and no save or sleep. *)
Lemma check_page_returns (page : string) (config : page_config) (log : Log)
    (s : state) :
  Forall (requirement_ok re_search) (requirements config) ->
  exists s' tr,
    check_page clock requests_get re_search page config log s = (Ret tt, s')
    /\ trace s' = trace s ++ tr
    /\ io_trace tr = [Get (url config)].
Proof.
  intros Hok.
  destruct (requests_get (S (ticks s)) (url config)) as [text|description]
    eqn:Hget.
  - destruct (all_ok_evaluates re_search text _ Hok) as [outcomes Hev].
    destruct (check_page_response clock requests_get re_search page config
                log s text outcomes Hget Hev)
      as (s' & Hrun & _ & _ & _ & tr & Htr & Hq).
    exists s', (EGet (url config) :: tr). repeat split; trivial.
    change (EGet (url config) :: tr) with ([EGet (url config)] ++ tr).
    now rewrite io_trace_app, Hq.
  - eexists. eexists.
    split; [exact (check_page_transport_failure clock requests_get re_search
                     page config log s description Hget)|].
    cbn [trace]. split; [reflexivity|]. now destruct (verbose log).
Qed.

Lemma check_pass_returns (pages : config) (log : Log) (s : state) :
  config_ok re_search pages ->
  exists s' tr,
    check_pass clock requests_get re_search pages log s = (Ret tt, s')
    /\ trace s' = trace s ++ tr
    /\ io_trace tr = pass_io pages log.
Proof.
  intros Hok. revert s. induction Hok as [|[page config] pages Hc _ IH];
    intros s.
  - exists s, []. repeat split. now rewrite app_nil_r.
  - destruct (check_page_returns page config log s Hc)
      as (s1 & tr1 & Hrun & Htr1 & Hio1).
    unfold check_pass in *. cbn [for_each fst snd].
    unfold bind at 1. unfold bind at 1. rewrite Hrun, Log_save_eq.
    match goal with |- context [for_each pages ?f ?s2] =>
      destruct (IH s2) as (s' & tr' & Hrest & Htr' & Hio')
    end.
    cbn [trace] in Htr'.
    exists s', (tr1 ++ [EWrite (logfile log) (log_to_json (_log s1))] ++ tr').
    repeat split; trivial.
    + rewrite Htr', Htr1. now rewrite <- !app_assoc.
    + rewrite !io_trace_app, Hio1, Hio'. reflexivity.
Qed.

Lemma print_when_quiet (b : bool) (o : output) (s : state) :
  exists tr,
    when b (print o) s = (Ret tt, add_trace s tr) /\ io_trace tr = [].
Proof.
  destruct b.
  - exists [EPrint o]. now split.
  - exists []. unfold when, ret. now rewrite add_trace_nil.
Qed.


End RunLoop.



Lemma literal_search_answers (term text : string) :
  literal_search term text <> BadPattern.
Proof. unfold literal_search. now destruct (occurs_in term text). Qed.


(** * The status page *)







Lemma event_dict_is_dict (ev : Event) : is_dict (event_dict ev).
Proof.
  destruct ev; unfold is_dict; simpl;
    repeat constructor; simpl; intuition discriminate.
Qed.

Lemma dict_keys_log_dicts (l : dict (list Event)) :
  dict_keys (log_dicts l) = dict_keys l.
Proof. unfold dict_keys, log_dicts. rewrite map_map. reflexivity. Qed.

Lemma log_dicts_ok (l : dict (list Event)) : is_dict l -> log_ok (log_dicts l).
Proof.
  intros Hd. split.
  - unfold is_dict. now rewrite dict_keys_log_dicts.
  - unfold log_dicts. apply Forall_map. apply Forall_forall.
    intros [page events] _. simpl. apply Forall_map. apply Forall_forall.
    intros ev _. apply event_dict_is_dict.
Qed.


Section StatusPage.
Variable show_datetime : Q -> string.
Variable py_str : value -> string.







End StatusPage.

(** * Two decimal places *)

(** [round_half_even] is within one half of its argument. *)
Lemma round_half_even_nearest (q : Q) :
  (2 * Z.abs (round_half_even q * Zpos (Qden q) - Qnum q) <= Zpos (Qden q))%Z.
Proof.
  unfold round_half_even.
  set (n := Qnum q). set (d := Zpos (Qden q)).
  assert (Hd : (0 < d)%Z) by (unfold d; lia).
  pose proof (Z.div_mod n d ltac:(lia)) as Hdiv.
  pose proof (Z.mod_pos_bound n d Hd) as Hmod.
  destruct (Z.ltb_spec (2 * (n mod d)) d) as [Hlt|Hge].
  - nia.
  - destruct (Z.ltb_spec d (2 * (n mod d))) as [Hgt|Hle]; [nia|].
    destruct (Z.even (n / d)); nia.
Qed.





(** * Relations kept along a run *)

Section Always.
Variable R : state -> state -> Prop.
Hypothesis R_refl : forall s, R s s.
Hypothesis R_trans : forall s1 s2 s3, R s1 s2 -> R s2 s3 -> R s1 s3.

Lemma always_ret {A : Type} (a : A) : always R (ret a).
Proof. intros s. apply R_refl. Qed.

Lemma always_raise {A : Type} (e : exn) : always R (@raise A e).
Proof. intros s. apply R_refl. Qed.

Lemma always_out_of_fuel {A : Type} : always R (@out_of_fuel A).
Proof. intros s. apply R_refl. Qed.

Lemma always_bind {A B : Type} (m : M A) (k : A -> M B) :
  always R m -> (forall a, always R (k a)) -> always R (bind m k).
Proof.
  intros Hm Hk s. unfold bind. specialize (Hm s).
  destruct (m s) as [[a| e |] s1]; simpl in *; trivial.
  eapply R_trans; [exact Hm | apply Hk].
Qed.

Lemma always_when (b : bool) (m : M unit) : always R m -> always R (when b m).
Proof. intros Hm. destruct b; [exact Hm | apply always_ret]. Qed.

Lemma always_for_each {A : Type} (xs : list A) (body : A -> M unit) :
  (forall x, always R (body x)) -> always R (for_each xs body).
Proof.
  intros Hbody. induction xs as [|x xs IH]; simpl.
  - apply always_ret.
  - apply always_bind; [apply Hbody | intros _; exact IH].
Qed.

Lemma always_for_each_acc {A B : Type} (xs : list A) (acc : B)
    (body : B -> A -> M B) :
  (forall acc x, always R (body acc x)) -> always R (for_each_acc xs acc body).
Proof.
  intros Hbody. revert acc. induction xs as [|x xs IH]; intros acc; simpl.
  - apply always_ret.
  - apply always_bind; [apply Hbody | intros acc'; apply IH].
Qed.

Lemma always_while_true (fuel : nat) (body : M bool) :
  always R body -> always R (while_true fuel body).
Proof.
  intros Hbody. induction fuel as [|fuel IH]; simpl.
  - apply always_out_of_fuel.
  - apply always_bind; [exact Hbody|].
    intros [|]; [apply always_ret | exact IH].
Qed.

Lemma always_get_log : always R get_log.
Proof. intros s. apply R_refl. Qed.

Lemma always_os_path_exists (path : string) : always R (os_path_exists path).
Proof. intros s. apply R_refl. Qed.

Lemma always_open_read_json (path : string) : always R (open_read_json path).
Proof.
  intros s. unfold open_read_json.
  destruct (files s path) as [[text|j]|]; apply R_refl.
Qed.

Lemma always_expect {A : Type} (o : option A) : always R (expect o).
Proof. destruct o; [apply always_ret | apply always_raise]. Qed.
End Always.

(** * What a check can do to the state *)

Lemma literal_event_is_dict (k1 k2 : string) (v1 v2 : value) :
  k1 <> k2 -> is_dict [(k1, v1); (k2, v2)].
Proof.
  intros Hne. unfold is_dict. simpl. repeat constructor; simpl; intuition.
Qed.

Section CheckSteps.
Variable clock : nat -> Q.
Variable requests_get : nat -> string -> response.
Variable re_search : string -> string -> search_result.
Variable R : state -> state -> Prop.
Variable log : Log.
Variable page : string.
Hypothesis R_refl : forall s, R s s.
Hypothesis R_trans : forall s1 s2 s3, R s1 s2 -> R s2 s3 -> R s1 s3.
Hypothesis R_tick :
  forall s, R s (mkState (_log s) (files s) (S (ticks s)) (trace s)).
Hypothesis R_quiet :
  forall s e, io_of e = [] -> R s (add_trace s [e]).
Hypothesis R_add_event :
  forall e s, is_dict e -> R s (snd (Log_add_event clock log page e s)).

Lemma always_quiet_emit (e : effect) : io_of e = [] -> always R (emit e).
Proof. intros He s. now apply R_quiet. Qed.

Lemma always_do_re_search (term content : string) :
  always R (do_re_search re_search term content).
Proof.
  unfold do_re_search. apply (always_bind R R_trans).
  - now apply always_quiet_emit.
  - intros _. destruct (re_search term content);
      [apply always_ret | apply always_ret | apply always_raise]; trivial.
Qed.

Lemma always_content_includes (content : string) (terms : list string) :
  always R (content_includes_checker re_search content terms).
Proof.
  induction terms as [|term terms IH]; simpl.
  - now apply always_ret.
  - apply (always_bind R R_trans); [apply always_do_re_search|].
    intros [|]; simpl; [exact IH|].
    apply (always_bind R R_trans); [now apply always_quiet_emit|].
    intros _. now apply always_ret.
Qed.

Lemma always_content_does_not_include (content : string)
    (terms : list string) :
  always R (content_does_not_include_checker re_search content terms).
Proof.
  induction terms as [|term terms IH]; simpl.
  - now apply always_ret.
  - apply (always_bind R R_trans); [apply always_do_re_search|].
    intros [|]; simpl; [now apply always_ret | exact IH].
Qed.

Lemma always_check_requirement (text : string) (r : requirement) :
  always R
    (check_requirement clock log page text
       (get_requirement_checkers re_search) r).
Proof.
  unfold check_requirement. destruct r as [|name params].
  - now apply always_raise.
  - destruct (dict_get name (get_requirement_checkers re_search))
      as [matcher|] eqn:Hreg; [|now apply always_raise].
    apply (always_bind R R_trans).
    + destruct (registered_checker re_search name matcher Hreg) as [->| ->].
      * apply always_content_includes.
      * apply always_content_does_not_include.
    + intros [|]; intros s; apply R_add_event;
        apply literal_event_is_dict; discriminate.
Qed.

(** From the request on, the check is made of steps that keep [R]. *)
Lemma check_page_after_request (config : page_config) (s : state) :
  R (mkState (_log s) (files s) (S (ticks s))
       (trace s ++ [EGet (url config)]))
    (snd (check_page clock requests_get re_search page config log s)).
Proof.
  unfold check_page.
  unfold bind at 1. cbn [time_time _log files ticks trace].
  unfold bind at 1. cbn [do_requests_get _log files ticks trace].
  destruct (requests_get (S (ticks s)) (url config)) as [text|description].
  - apply (always_bind R R_trans); [intros s0; apply R_tick|].
    intros t_end. apply (always_bind R R_trans).
    + intros s0. apply R_add_event. apply literal_event_is_dict. discriminate.
    + intros _. apply (always_for_each R R_refl R_trans).
      apply always_check_requirement.
  - apply R_add_event. apply literal_event_is_dict. discriminate.
Qed.
End CheckSteps.

(** * Events are only ever added *)

Lemma appended_refl (page : string) (l : log_map) : appended page l l.
Proof. split; [exists []; now rewrite app_nil_r | trivial]. Qed.

Lemma appended_trans (page : string) (l1 l2 l3 : log_map) :
  appended page l1 l2 -> appended page l2 l3 -> appended page l1 l3.
Proof.
  intros [[m1 H1] O1] [[m2 H2] O2]. split.
  - exists (m1 ++ m2). now rewrite H2, H1, app_assoc.
  - intros p Hp. now rewrite O2, O1.
Qed.

Lemma appended_dd_append (page : string) (e : event) (l : log_map) :
  appended page l (dd_append page e l).
Proof.
  split.
  - exists [e]. unfold page_events at 1.
    now rewrite page_events_dd_append_same.
  - intros p Hp. now apply dd_append_other.
Qed.




Lemma quiet_step_refl (page : string) (s : state) : quiet_step page s s.
Proof.
  repeat split; trivial; try apply appended_refl.
  exists []. now rewrite app_nil_r.
Qed.

Lemma quiet_step_trans (page : string) (s1 s2 s3 : state) :
  quiet_step page s1 s2 -> quiet_step page s2 s3 -> quiet_step page s1 s3.
Proof.
  intros (F1 & T1 & A1 & tr1 & E1 & Q1) (F2 & T2 & A2 & tr2 & E2 & Q2).
  split; [congruence|]. split; [lia|].
  split; [eapply appended_trans; eauto|].
  exists (tr1 ++ tr2). rewrite E2, E1, io_trace_app, Q1, Q2.
  now rewrite app_assoc.
Qed.

Lemma quiet_step_add_event (clock : nat -> Q) (log : Log) (page : string)
    (e : event) (s : state) :
  quiet_step page s (snd (Log_add_event clock log page e s)).
Proof.
  rewrite Log_add_event_eq. cbn [snd]. unfold quiet_step.
  cbn [_log files ticks trace].
  split; trivial. split; [lia|]. split; [apply appended_dd_append|].
  eexists. split; [reflexivity|]. now destruct (verbose log).
Qed.

(** From the request on, a check is quiet. *)
Lemma check_page_quiet_step (clock : nat -> Q)
    (requests_get : nat -> string -> response)
    (re_search : string -> string -> search_result)
    (page : string) (config : page_config) (log : Log) (s : state) :
  quiet_step page
    (mkState (_log s) (files s) (S (ticks s)) (trace s ++ [EGet (url config)]))
    (snd (check_page clock requests_get re_search page config log s)).
Proof.
  apply (check_page_after_request clock requests_get re_search
           (quiet_step page) log page
           (quiet_step_refl page) (quiet_step_trans page)).
  - intros s0. repeat split; cbn [_log files ticks trace]; trivial;
      try apply appended_refl; try lia.
    exists []. now rewrite app_nil_r.
  - intros s0 e He. unfold add_trace, quiet_step. cbn [_log files ticks trace].
    repeat split; trivial; try apply appended_refl.
    exists [e]. split; trivial. unfold io_trace. simpl. now rewrite He.
  - intros e s0 _. apply quiet_step_add_event.
Qed.

(** X1.  Whatever a check of a page ends with, a return or an exception,
    it has made exactly one request and no save and no sleep, it has
    changed no file, and in the log it has only added events at the end of
    that page: the earlier events of the page and the other pages are as
    they were. *)
Theorem X1_check_page_frame (clock : nat -> Q)
    (requests_get : nat -> string -> response)
    (re_search : string -> string -> search_result)
    (page : string) (config : page_config) (log : Log) (s : state) :
  let s' := snd (check_page clock requests_get re_search page config log s) in
  files s' = files s
  /\ (exists more,
        page_events page (_log s') = page_events page (_log s) ++ more)
  /\ (forall p, p <> page -> dict_get p (_log s') = dict_get p (_log s))
  /\ exists tr,
       trace s' = trace s ++ EGet (url config) :: tr
       /\ io_trace tr = []
       /\ io_trace (EGet (url config) :: tr) = [Get (url config)].
Proof.
  intros s'.
  destruct (check_page_quiet_step clock requests_get re_search page config
              log s) as (Hfiles & _ & [Hpage Hother] & tr & Htr & Hq).
  cbn [_log files ticks trace] in *. fold s' in Hfiles, Hpage, Hother, Htr.
  repeat split; trivial.
  exists tr. rewrite Htr, <- app_assoc. repeat split; trivial.
  change (EGet (url config) :: tr) with ([EGet (url config)] ++ tr).
  now rewrite io_trace_app, Hq.
Qed.

(** * The exceptions of a check *)




Section CheckExceptions.
Variable clock : nat -> Q.
Variable requests_get : nat -> string -> response.
Variable re_search : string -> string -> search_result.





End CheckExceptions.


(** * Requirements that pass, fail or cannot be evaluated *)

Lemma for_each_app {A : Type} (xs ys : list A) (body : A -> M unit)
    (s : state) :
  for_each (xs ++ ys) body s
  = (for_each xs body ;; for_each ys body) s.
Proof.
  revert s. induction xs as [|x xs IH]; intros s; simpl.
  - reflexivity.
  - unfold bind. destruct (body x s) as [[[]| e |] s1]; trivial.
Qed.

Lemma includes_evaluates (re_search : string -> string -> search_result)
    (text : string) (params : list string) (b : bool) :
  fst (includes_run re_search text params) = Ret b ->
  evaluates re_search text ("content_includes" :: params) b.
Proof.
  intros Hb.
  exists "content_includes", params, (content_includes_checker re_search),
    (snd (includes_run re_search text params)).
  repeat split; [apply includes_run_quiet|].
  intros s. now rewrite includes_checker_run, Hb.
Qed.

Lemma excludes_evaluates (re_search : string -> string -> search_result)
    (text : string) (params : list string) (b : bool) :
  fst (excludes_run re_search text params) = Ret b ->
  evaluates re_search text ("content_does_not_include" :: params) b.
Proof.
  intros Hb.
  exists "content_does_not_include", params,
    (content_does_not_include_checker re_search),
    (snd (excludes_run re_search text params)).
  repeat split; [apply excludes_run_quiet|].
  intros s. now rewrite excludes_checker_run, Hb.
Qed.

(** X3.  When the request succeeds and every requirement can be evaluated,
    the check returns and the page's log grows by one [response_received]
    event followed by one event per requirement, in the order of the
    config: [requirement_passed] where the checker answered true and
    [requirement_failed] where it answered false.  A requirement that
    fails does not stop the requirements after it. *)
Theorem X3_one_event_per_requirement (clock : nat -> Q)
    (requests_get : nat -> string -> response)
    (re_search : string -> string -> search_result)
    (page : string) (config : page_config) (log : Log) (s : state)
    (text : string) (outcomes : list bool) :
  requests_get (S (ticks s)) (url config) = RespOk text ->
  Forall2 (evaluates re_search text) (requirements config) outcomes ->
  exists s',
    check_page clock requests_get re_search page config log s = (Ret tt, s')
    /\ page_events page (_log s')
       = page_events page (_log s)
           ++ map event_dict
                (ResponseReceived (clock (S (S (ticks s))))
                   (clock (S (ticks s)) - clock (ticks s))
                 :: requirement_events clock (S (S (S (ticks s)))) outcomes
                      (requirements config))
    /\ length (page_events page (_log s'))
       = length (page_events page (_log s))
         + (1 + length (requirements config))
    /\ ticks s' = length (requirements config) + 3 + ticks s.
Proof.
  intros Hget Hev.
  destruct (check_page_response clock requests_get re_search page config log
              s text outcomes Hget Hev)
    as (s' & Hrun & Hlog & _ & Hticks & _).
  exists s'. split; trivial.
  rewrite Hlog, page_events_append_all_eq. repeat split; [|lia].
  rewrite length_app, length_map. cbn [length].
  rewrite requirement_events_length; trivial.
  symmetry. eapply Forall2_length; eauto.
Qed.

Lemma X3_one_event_per_requirement_witness :
  exists s',
    check_page Sample.clock Sample.requests_get literal_search "site"
      SampleChecks.mixed Sample.log Sample.start = (Ret tt, s')
    /\ page_events "site" (_log s')
       = map event_dict
           [ResponseReceived (Sample.clock 2) (Sample.clock 1 - Sample.clock 0);
            RequirementFailed (Sample.clock 3) ["content_includes"; "Missing"];
            RequirementPassed (Sample.clock 4)
              ["content_does_not_include"; "Missing"]].
Proof.
  destruct (X3_one_event_per_requirement Sample.clock Sample.requests_get
              literal_search "site" SampleChecks.mixed Sample.log Sample.start
              "Example Domain" [false; true] eq_refl)
    as (s' & Hrun & Hlog & _).
  - repeat constructor.
    + now apply includes_evaluates.
    + now apply excludes_evaluates.
  - exists s'. split; [exact Hrun | exact Hlog].
Defined.

(** X4.  A requirement that cannot be dispatched stops the check with an
    exception: [IndexError] when it is empty, [KeyError] with the name when
    no checker is registered under its name.  By then the response and the
    requirements before it are in the page's log, in memory; the
    requirements after it are not looked at, and no file has changed. *)
Theorem X4_undispatchable_requirement (clock : nat -> Q)
    (requests_get : nat -> string -> response)
    (re_search : string -> string -> search_result)
    (page : string) (config : page_config) (log : Log) (s : state)
    (text : string) (before after : list requirement) (r : requirement)
    (outcomes : list bool) (e : exn) :
  requests_get (S (ticks s)) (url config) = RespOk text ->
  requirements config = before ++ r :: after ->
  Forall2 (evaluates re_search text) before outcomes ->
  (r = [] /\ e = IndexError)
  \/ (exists name params,
        r = name :: params
        /\ dict_get name (get_requirement_checkers re_search) = None
        /\ e = KeyError name) ->
  exists s',
    check_page clock requests_get re_search page config log s = (Raise e, s')
    /\ page_events page (_log s')
       = page_events page (_log s)
           ++ map event_dict
                (ResponseReceived (clock (S (S (ticks s))))
                   (clock (S (ticks s)) - clock (ticks s))
                 :: requirement_events clock (S (S (S (ticks s)))) outcomes
                      before)
    /\ files s' = files s
    /\ forall after',
         fst (check_page clock requests_get re_search page
                (mkPageConfig (url config) (before ++ r :: after')) log s)
         = Raise e.
Proof.
  intros Hget Hreqs Hev Hr.
  assert (Hstop : forall s1,
             check_requirement clock log page text
               (get_requirement_checkers re_search) r s1 = (Raise e, s1)).
  { intros s1. destruct Hr as [[-> ->]|(name & params & -> & Hreg & ->)].
    - reflexivity.
    - unfold check_requirement. now rewrite Hreg. }
  assert (Hrun : forall config',
             url config' = url config ->
             (exists after', requirements config' = before ++ r :: after') ->
             exists s',
               check_page clock requests_get re_search page config' log s
               = (Raise e, s')
               /\ _log s'
                  = append_all page
                      (map event_dict
                         (ResponseReceived (clock (S (S (ticks s))))
                            (clock (S (ticks s)) - clock (ticks s))
                          :: requirement_events clock (S (S (S (ticks s))))
                               outcomes before))
                      (_log s)
               /\ files s' = files s).
  { intros config' Hurl [after' Hreqs']. unfold check_page.
    unfold bind at 1. cbn [time_time _log files ticks trace].
    unfold bind at 1. cbn [do_requests_get _log files ticks trace].
    rewrite Hurl, Hget.
    unfold bind at 1. cbn [time_time _log files ticks trace].
    unfold bind at 1. rewrite Log_add_event_eq.
    cbn [_log files ticks trace]. rewrite Hreqs', for_each_app.
    match goal with |- context [bind (for_each before ?body) ?k ?s1] =>
      destruct (for_each_requirements clock re_search log page text before
                  outcomes s1 Hev)
        as (s2 & Hfor & Hlog & Hfiles & _);
      rewrite (bind_Ret (for_each before body) k Hfor)
    end.
    cbn [for_each]. unfold bind at 1. rewrite Hstop.
    exists s2. cbn [_log files ticks trace] in *. repeat split; trivial. }
  destruct (Hrun config eq_refl (ex_intro _ after Hreqs))
    as (s' & Hcheck & Hlog & Hfiles).
  exists s'. split; trivial. split.
  - now rewrite Hlog, page_events_append_all_eq.
  - split; trivial. intros after'.
    destruct (Hrun (mkPageConfig (url config) (before ++ r :: after')) eq_refl
                (ex_intro _ after' eq_refl)) as (s'' & Hcheck' & _).
    now rewrite Hcheck'.
Qed.

Lemma X4_undispatchable_requirement_witness :
  exists s',
    check_page Sample.clock Sample.requests_get literal_search "site"
      SampleChecks.misspelt Sample.log Sample.start
    = (Raise (KeyError "content_contains"), s')
    /\ page_events "site" (_log s')
       = map event_dict
           [ResponseReceived (Sample.clock 2) (Sample.clock 1 - Sample.clock 0);
            RequirementPassed (Sample.clock 3) ["content_includes"; "Example"]].
Proof.
  destruct (X4_undispatchable_requirement Sample.clock Sample.requests_get
              literal_search "site" SampleChecks.misspelt Sample.log
              Sample.start "Example Domain"
              [["content_includes"; "Example"]]
              [["content_includes"; "Domain"]]
              ["content_contains"; "Example"] [true]
              (KeyError "content_contains") eq_refl eq_refl)
    as (s' & Hrun & Hlog & _).
  - repeat constructor. now apply includes_evaluates.
  - right. exists "content_contains", ["Example"]. repeat split.
  - exists s'. split; [exact Hrun | exact Hlog].
Defined.

(** X5.  Both checkers raise [re.error] at the first parameter that
    [re.search] refuses, if the parameters before it did not already decide
    the answer; they have searched up to that parameter and printed
    nothing. *)
Theorem X5_invalid_pattern (re_search : string -> string -> search_result)
    (content term : string) (before after : list string) (s : state) :
  re_search term content = BadPattern ->
  (Forall (fun t => re_search t content = Found) before ->
   content_includes_checker re_search content (before ++ term :: after) s
   = (Raise (re_error term),
      add_trace s (searches content (before ++ [term]))))
  /\ (Forall (fun t => re_search t content = NotFound) before ->
      content_does_not_include_checker re_search content
        (before ++ term :: after) s
      = (Raise (re_error term),
         add_trace s (searches content (before ++ [term])))).
Proof.
  intros Hbad. split; intros Hbefore; revert s;
    induction Hbefore as [|t before Ht _ IH]; intros s; simpl;
    unfold bind at 1; rewrite do_re_search_eq.
  - now rewrite Hbad.
  - rewrite Ht. simpl negb. cbv iota. rewrite IH, add_trace_app. reflexivity.
  - now rewrite Hbad.
  - rewrite Ht. cbv iota. rewrite IH, add_trace_app. reflexivity.
Qed.

Lemma X5_invalid_pattern_witness :
  content_includes_checker SampleChecks.strict_search "hello world"
    ["hello"; "("; "xyz"] Sample.start
  = (Raise (re_error "("),
     add_trace Sample.start
       [ESearch "hello" "hello world"; ESearch "(" "hello world"]).
Proof.
  apply (proj1 (X5_invalid_pattern SampleChecks.strict_search "hello world" "("
                  ["hello"] ["xyz"] Sample.start eq_refl)).
  repeat constructor.
Defined.

(** * Relations kept along a pass and along the loop *)

Section RunSteps.
Variable clock : nat -> Q.
Variable requests_get : nat -> string -> response.
Variable re_search : string -> string -> search_result.
Variable R : state -> state -> Prop.
Variable log : Log.
Hypothesis R_refl : forall s, R s s.
Hypothesis R_trans : forall s1 s2 s3, R s1 s2 -> R s2 s3 -> R s1 s3.
Hypothesis R_tick :
  forall s, R s (mkState (_log s) (files s) (S (ticks s)) (trace s)).
Hypothesis R_effect : forall s e, R s (add_trace s [e]).
Hypothesis R_add_event :
  forall page e s, is_dict e -> R s (snd (Log_add_event clock log page e s)).
Hypothesis R_save : forall s, R s (snd (Log_save log s)).

Lemma always_check_page (page : string) (config : page_config) :
  always R (check_page clock requests_get re_search page config log).
Proof.
  intros s.
  apply R_trans
    with (mkState (_log s) (files s) (S (ticks s))
            (trace s ++ [EGet (url config)])).
  - eapply R_trans; [apply R_tick|].
    apply (R_effect (mkState (_log s) (files s) (S (ticks s)) (trace s))).
  - apply (check_page_after_request clock requests_get re_search R log page
             R_refl R_trans R_tick (fun s0 e _ => R_effect s0 e)
             (R_add_event page)).
Qed.

Lemma always_check_pass (pages : config) :
  always R (check_pass clock requests_get re_search pages log).
Proof.
  unfold check_pass. apply (always_for_each R R_refl R_trans).
  intros [page config]. apply (always_bind R R_trans).
  - apply always_check_page.
  - intros _ s. apply R_save.
Qed.

Lemma always_run_loop (fuel : nat) (pages : config) (delay : Z)
    (verbose : bool) :
  always R (run_loop clock requests_get re_search fuel pages log delay verbose).
Proof.
  unfold run_loop. apply (always_while_true R R_refl R_trans).
  apply (always_bind R R_trans).
  - apply (always_when R R_refl). intros s. apply R_effect.
  - intros _. apply (always_bind R R_trans); [apply always_check_pass|].
    intros _. destruct (delay <? 0)%Z.
    + apply (always_ret R R_refl).
    + apply (always_bind R R_trans); [intros s; apply R_effect|].
      intros _. apply (always_ret R R_refl).
Qed.
End RunSteps.

(** * The log only grows, in memory and on disk *)






(** * Timestamps never decrease within a page *)

Lemma nondecreasing_snoc (ts : list Q) (t : Q) :
  nondecreasing ts -> Forall (fun t' => (t' <= t)%Q) ts ->
  nondecreasing (ts ++ [t]).
Proof.
  induction ts as [|t0 ts IH]; simpl; intros Hts Hle.
  - split; [constructor | exact I].
  - destruct Hts as [Hhead Htail]. apply Forall_cons_iff in Hle.
    destruct Hle as [Ht0 Hle]. split.
    + apply Forall_app. split; trivial. now repeat constructor.
    + now apply IH.
Qed.

Lemma chronological_nil (bound : Q) : chronological bound [].
Proof. exists []. repeat split; constructor. Qed.

Lemma chronological_later (bound bound' : Q) (events : list event) :
  (bound <= bound')%Q ->
  chronological bound events -> chronological bound' events.
Proof.
  intros Hle (ts & Hstamps & Hsorted & Hbound).
  exists ts. repeat split; trivial.
  eapply Forall_impl; [|exact Hbound].
  intros t Ht. simpl in Ht. eapply Qle_trans; eauto.
Qed.

Lemma chronological_snoc (bound bound' : Q) (events : list event) (e : event) :
  (bound <= bound')%Q ->
  stamp e = Some bound ->
  chronological bound events -> chronological bound' (events ++ [e]).
Proof.
  intros Hle He (ts & Hstamps & Hsorted & Hbound).
  exists (ts ++ [bound]). repeat split.
  - rewrite !map_app, Hstamps. simpl. now rewrite He.
  - now apply nondecreasing_snoc.
  - apply Forall_app. split.
    + eapply Forall_impl; [|exact Hbound].
      intros t Ht. simpl in Ht. eapply Qle_trans; eauto.
    + now repeat constructor.
Qed.

Lemma stamp_after_set (t : Q) (e : event) :
  stamp (dict_set "timestamp" (VNum t) e) = Some t.
Proof. unfold stamp. now rewrite dict_get_set_same. Qed.

Section Chronological.
Variable clock : nat -> Q.
Hypothesis clock_monotone : forall n, (clock n <= clock (S n))%Q.

Lemma log_chronological_tick (s : state) :
  log_chronological clock s ->
  log_chronological clock
    (mkState (_log s) (files s) (S (ticks s)) (trace s)).
Proof.
  unfold log_chronological. cbn [_log ticks]. intros H.
  eapply Forall_impl; [|exact H].
  intros pe Hpe. eapply chronological_later; eauto.
Qed.

Lemma log_chronological_add_event (log : Log) (page : string) (e : event)
    (s : state) :
  log_chronological clock s ->
  log_chronological clock (snd (Log_add_event clock log page e s)).
Proof.
  rewrite Log_add_event_eq. unfold log_chronological. cbn [snd _log ticks].
  intros H.
  assert (Hlater : Forall (fun pe => chronological (clock (S (ticks s)))
                                       (snd pe)) (_log s)).
  { eapply Forall_impl; [|exact H].
    intros pe Hpe. eapply chronological_later; eauto. }
  unfold dd_append, dd_getitem.
  destruct (dict_get page (_log s)) as [events|] eqn:Hget.
  - apply Forall_dict_set
      with (P := chronological (clock (S (ticks s)))); trivial.
    apply chronological_snoc with (bound := clock (ticks s)); trivial.
    + apply stamp_after_set.
    + eapply Forall_dict_get
        with (P := chronological (clock (ticks s))); eauto.
  - apply Forall_dict_set
      with (P := chronological (clock (S (ticks s)))).
    + apply Forall_app. split; trivial.
      repeat constructor. apply chronological_nil.
    + apply chronological_snoc with (bound := clock (ticks s))
                                    (events := []); trivial.
      * apply stamp_after_set.
      * apply chronological_nil.
Qed.

Lemma run_loop_chronological (requests_get : nat -> string -> response)
    (re_search : string -> string -> search_result)
    (fuel : nat) (pages : config) (log : Log) (delay : Z) (verbose : bool) :
  always (fun s s' => log_chronological clock s -> log_chronological clock s')
    (run_loop clock requests_get re_search fuel pages log delay verbose).
Proof.
  apply always_run_loop; auto.
  - intros s. apply log_chronological_tick.
  - intros page e s _. apply log_chronological_add_event.
Qed.
End Chronological.

Lemma chronological_nth (bound : Q) (events : list event) (i j : nat)
    (ti tj : Q) :
  chronological bound events ->
  i <= j ->
  option_map stamp (nth_error events i) = Some (Some ti) ->
  option_map stamp (nth_error events j) = Some (Some tj) ->
  (ti <= tj)%Q.
Proof.
  intros (ts & Hstamps & Hsorted & _) Hij Hi Hj.
  assert (Hti : nth_error ts i = Some ti).
  { rewrite <- nth_error_map in Hi. rewrite Hstamps, nth_error_map in Hi.
    destruct (nth_error ts i); simpl in Hi; congruence. }
  assert (Htj : nth_error ts j = Some tj).
  { rewrite <- nth_error_map in Hj. rewrite Hstamps, nth_error_map in Hj.
    destruct (nth_error ts j); simpl in Hj; congruence. }
  clear Hstamps Hi Hj. revert i j Hij Hti Htj.
  induction ts as [|t ts IH]; intros i j Hij Hti Htj.
  - destruct i; discriminate.
  - destruct Hsorted as [Hhead Htail]. destruct i as [|i], j as [|j].
    + simpl in *. injection Hti as <-. injection Htj as <-. apply Qle_refl.
    + simpl in *. injection Hti as <-.
      apply nth_error_In in Htj. rewrite Forall_forall in Hhead. auto.
    + lia.
    + simpl in *. apply (IH Htail i j); trivial. lia.
Qed.

(** X7.  If the clock never runs backwards, the run loop keeps every page
    of the log in the order of time, however it ends: when every page's
    events were stamped in non-decreasing order with times not after the
    next reading of the clock, they still are at the end, so of any two
    events of a page the later in the list has the later or equal
    timestamp. *)
Theorem X7_timestamps_never_decrease (clock : nat -> Q)
    (requests_get : nat -> string -> response)
    (re_search : string -> string -> search_result)
    (fuel : nat) (pages : config) (log : Log) (delay : Z) (verbose : bool)
    (s : state) :
  (forall n, (clock n <= clock (S n))%Q) ->
  log_chronological clock s ->
  let s' := snd (run_loop clock requests_get re_search fuel pages log delay
                   verbose s) in
  log_chronological clock s'
  /\ forall page events i j ti tj,
       dict_get page (_log s') = Some events ->
       i <= j ->
       option_map stamp (nth_error events i) = Some (Some ti) ->
       option_map stamp (nth_error events j) = Some (Some tj) ->
       (ti <= tj)%Q.
Proof.
  intros Hclock Hs s'.
  assert (Hs' : log_chronological clock s').
  { now apply (run_loop_chronological clock Hclock requests_get re_search fuel
                 pages log delay verbose s). }
  split; trivial.
  intros page events i j ti tj Hget.
  apply chronological_nth with (bound := clock (ticks s')).
  eapply Forall_dict_get
    with (P := chronological (clock (ticks s'))); eauto.
Qed.

Lemma X7_timestamps_never_decrease_witness :
  log_chronological Sample.clock
    (snd (run_loop Sample.clock Sample.requests_get literal_search 3
            SamplePass.pages Sample.log 0 false SamplePass.created)).
Proof.
  apply (X7_timestamps_never_decrease Sample.clock Sample.requests_get
           literal_search 3 SamplePass.pages Sample.log 0 false
           SamplePass.created Sample_clock_monotone).
  constructor.
Defined.

(** * The files a run touches *)

Lemma only_writes_refl (path : string) (s : state) : only_writes path s s.
Proof. intros p _. reflexivity. Qed.

Lemma only_writes_trans (path : string) (s1 s2 s3 : state) :
  only_writes path s1 s2 -> only_writes path s2 s3 -> only_writes path s1 s3.
Proof. intros H1 H2 p Hp. now rewrite H2, H1. Qed.

Lemma only_writes_same_files (path : string) (s s' : state) :
  files s' = files s -> only_writes path s s'.
Proof. intros H p _. now rewrite H. Qed.

Lemma only_writes_save (log : Log) (s : state) :
  only_writes (logfile log) s (snd (Log_save log s)).
Proof.
  intros p Hp. rewrite Log_save_eq. cbn [snd files].
  now apply write_file_other.
Qed.

Lemma Log_init_not_json (path : string) (v : bool) (s : state) (text : string) :
  files s path = Some (FileText text) ->
  Log_init path v s =
  (Raise JSONDecodeError,
   mkState [] (files s) (ticks s)
     (trace s
        ++ (if v then [EPrint (OutStr ("Checking log file " ++ path)%string)]
            else []))).
Proof.
  intros Hf. unfold Log_init, bind, set_log, os_path_exists, open_read_json.
  simpl. rewrite Hf. simpl. destruct v; simpl; rewrite ?Hf; simpl.
  all: rewrite ?app_nil_r; trivial.
Qed.

Lemma Log_init_other_shape (path : string) (v : bool) (s : state) (j : json) :
  files s path = Some (FileJson j) ->
  log_of_json j = None ->
  Log_init path v s =
  (Raise TypeError,
   mkState [] (files s) (ticks s)
     (trace s
        ++ (if v then [EPrint (OutStr ("Checking log file " ++ path)%string)]
            else []))).
Proof.
  intros Hf Hj. unfold Log_init, bind, set_log, os_path_exists, open_read_json.
  simpl. rewrite Hf. simpl. destruct v; simpl; rewrite ?Hf, Hj; simpl.
  all: rewrite ?app_nil_r; trivial.
Qed.

(** What opening a log does, by what the file holds. *)
Lemma Log_init_cases (path : string) (v : bool) (s : state) :
  (fst (Log_init path v s) = Ret (mkLog path v)
   \/ exists e, fst (Log_init path v s) = Raise e)
  /\ only_writes path s (snd (Log_init path v s))
  /\ (files s path <> None ->
      files (snd (Log_init path v s)) = files s
      /\ trace (snd (Log_init path v s))
         = trace s
             ++ (if v then [EPrint (OutStr ("Checking log file " ++ path)%string)]
                 else [])).
Proof.
  destruct (files s path) as [[text|j]|] eqn:Hf.
  - rewrite (Log_init_not_json path v s text Hf). cbn [fst snd files trace].
    repeat split; eauto; try (now apply only_writes_same_files).
  - destruct (log_of_json j) as [l|] eqn:Hj.
    + rewrite (Log_init_present path v s j l Hf Hj). cbn [fst snd files trace].
      repeat split; auto; try (now apply only_writes_same_files).
    + rewrite (Log_init_other_shape path v s j Hf Hj).
      cbn [fst snd files trace].
      repeat split; eauto; try (now apply only_writes_same_files).
  - rewrite (Log_init_absent path v s Hf). cbn [fst snd files trace].
    split; [auto|]. split; [|congruence].
    intros p Hp. cbn [files]. now apply write_file_other.
Qed.

Lemma Log_init_handle (path : string) (v : bool) (s : state) (log : Log) :
  fst (Log_init path v s) = Ret log -> log = mkLog path v.
Proof.
  intros H. destruct (Log_init_cases path v s) as [[Hret|[e He]] _];
    congruence.
Qed.

Lemma Log_init_only_writes (path : string) (v : bool) (s : state) :
  only_writes path s (snd (Log_init path v s)).
Proof. apply Log_init_cases. Qed.

Lemma load_config_same_files (configfile : string) (s : state) :
  files (snd (load_config configfile s)) = files s.
Proof.
  unfold load_config, bind, os_path_exists, open_read_json, expect.
  destruct (files s configfile) as [[text|j]|] eqn:Hf; simpl; trivial;
    rewrite Hf; trivial.
  now destruct (config_of_json j).
Qed.

(** X8.  Whatever the config, the delay and the outcome, [run_check]
    changes no file but the log file; in particular it never writes to the
    config file when that is another file. *)
Theorem X8_run_check_writes_only_the_log (clock : nat -> Q)
    (requests_get : nat -> string -> response)
    (re_search : string -> string -> search_result)
    (fuel : nat) (configfile : string) (delay : Z) (logfile : string)
    (verbose html : bool) (s : state) (p : string) :
  p <> logfile ->
  files (snd (run_check clock requests_get re_search fuel configfile delay
                logfile verbose html s)) p
  = files s p.
Proof.
  intros Hp. revert p Hp. change (only_writes logfile s
    (snd (run_check clock requests_get re_search fuel configfile delay
            logfile verbose html s))).
  unfold run_check. unfold bind at 1.
  pose proof (load_config_same_files configfile s) as Hload.
  destruct (load_config configfile s) as [[pages| e |] s1];
    cbn [snd] in *; try (now apply only_writes_same_files).
  apply only_writes_trans with s1; [now apply only_writes_same_files|].
  unfold bind at 1.
  pose proof (Log_init_only_writes logfile verbose s1) as Hinit.
  pose proof (Log_init_handle logfile verbose s1) as Hhandle.
  destruct (Log_init logfile verbose s1) as [[log| e |] s2];
    cbn [fst snd] in *; trivial.
  apply only_writes_trans with s2; trivial.
  rewrite (Hhandle log eq_refl).
  assert (Heffect : forall s0 e, only_writes logfile s0 (add_trace s0 [e])).
  { intros s0 e. now apply only_writes_same_files. }
  apply (always_bind _ (only_writes_trans logfile)).
  - apply (always_when _ (only_writes_refl logfile)). intros s0.
    apply Heffect.
  - intros _. apply (always_bind _ (only_writes_trans logfile)).
    + apply (always_run_loop clock requests_get re_search
               (only_writes logfile) (mkLog logfile verbose)
               (only_writes_refl logfile) (only_writes_trans logfile)).
      * intros s0. now apply only_writes_same_files.
      * exact Heffect.
      * intros page e s0 _. apply only_writes_same_files.
        now rewrite Log_add_event_eq.
      * intros s0. apply (only_writes_save (mkLog logfile verbose)).
    + intros _. apply (always_when _ (only_writes_refl logfile)). intros s0.
      apply Heffect.
Qed.

Lemma X8_run_check_writes_only_the_log_witness :
  files (snd (run_check Sample.clock Sample.requests_get literal_search 1
                "pages.json" (-1) "log.json" false false
                SampleRun.configured)) "pages.json"
  = Some (FileJson SampleRun.config_json).
Proof.
  rewrite (X8_run_check_writes_only_the_log Sample.clock Sample.requests_get
             literal_search 1 "pages.json" (-1) "log.json" false false
             SampleRun.configured "pages.json").
  - reflexivity.
  - discriminate.
Defined.

(** * A log in memory is always well formed *)









(** After a pass that returned over at least one page, the last thing
    done was a save. *)
Lemma check_pass_saved (clock : nat -> Q)
    (requests_get : nat -> string -> response)
    (re_search : string -> string -> search_result)
    (pages : config) (log : Log) (s s' : state) :
  pages <> [] ->
  check_pass clock requests_get re_search pages log s = (Ret tt, s') ->
  files s' (logfile log) = Some (FileJson (log_to_json (_log s'))).
Proof.
  unfold check_pass. revert s.
  induction pages as [|[page config] pages IH]; intros s Hne; [congruence|].
  cbn [for_each fst snd]. unfold bind at 1. unfold bind at 1.
  destruct (check_page clock requests_get re_search page config log s)
    as [[[]| e |] s1]; try discriminate.
  rewrite Log_save_eq. destruct pages as [|item pages].
  - simpl. intros [= <-]. cbn [files _log]. apply write_file_same.
  - apply IH. discriminate.
Qed.



(** * A check that raises *)

(** X10.  When the check of a page raises, the pass raises the same
    exception at once: the pages after it are not requested, and the log
    is not saved, so no file has changed since the save that followed the
    page before; what the failed check added to the log is in memory only.
    The run loop ends with that exception whatever the delay. *)
Theorem X10_failed_check_is_not_saved (clock : nat -> Q)
    (requests_get : nat -> string -> response)
    (re_search : string -> string -> search_result)
    (before after : config) (page : string) (config : page_config)
    (log : Log) (s s1 s2 : state) (e : exn) :
  check_pass clock requests_get re_search before log s = (Ret tt, s1) ->
  check_page clock requests_get re_search page config log s1 = (Raise e, s2) ->
  check_pass clock requests_get re_search
    (before ++ (page, config) :: after) log s = (Raise e, s2)
  /\ files s2 = files s1
  /\ io_trace (trace s2) = io_trace (trace s1) ++ [Get (url config)]
  /\ forall fuel delay,
       run_loop clock requests_get re_search (S fuel)
         (before ++ (page, config) :: after) log delay false s
       = (Raise e, s2).
Proof.
  intros Hbefore Hcheck.
  assert (Hpass : check_pass clock requests_get re_search
                    (before ++ (page, config) :: after) log s
                  = (Raise e, s2)).
  { unfold check_pass in *. rewrite for_each_app.
    rewrite (bind_Ret _ _ Hbefore). cbn [for_each fst snd].
    unfold bind at 1. unfold bind at 1. now rewrite Hcheck. }
  pose proof (check_page_quiet_step clock requests_get re_search page config
                log s1) as Hquiet.
  rewrite Hcheck in Hquiet. cbn [snd] in Hquiet.
  destruct Hquiet as (Hfiles & _ & _ & tr & Htr & Hq).
  cbn [files trace] in *.
  split; trivial. split; trivial. split.
  - rewrite Htr, !io_trace_app, Hq. simpl. now rewrite app_nil_r.
  - intros fuel delay. unfold run_loop. cbn [while_true when].
    unfold bind at 1. unfold bind at 1. cbn [ret].
    unfold bind at 1. now rewrite Hpass.
Qed.

Lemma X10_failed_check_is_not_saved_witness :
  exists s2,
    check_pass Sample.clock Sample.requests_get literal_search
      SamplePass.pages Sample.log SamplePass.created
    = (Raise (KeyError "content_contains"), s2)
    /\ files s2 "log.json"
       = files (snd (check_pass Sample.clock Sample.requests_get
                       literal_search [("site", Sample.site)] Sample.log
                       SamplePass.created)) "log.json".
Proof.
  eexists.
  destruct (X10_failed_check_is_not_saved Sample.clock Sample.requests_get
              literal_search [("site", Sample.site)] [] "typo" Sample.typo
              Sample.log SamplePass.created
              (snd (check_pass Sample.clock Sample.requests_get literal_search
                      [("site", Sample.site)] Sample.log SamplePass.created))
              (snd (check_page Sample.clock Sample.requests_get literal_search
                      "typo" Sample.typo Sample.log
                      (snd (check_pass Sample.clock Sample.requests_get
                              literal_search [("site", Sample.site)]
                              Sample.log SamplePass.created))))
              (KeyError "content_contains"))
    as (Hpass & Hfiles & _).
  - vm_compute. reflexivity.
  - vm_compute. reflexivity.
  - split; [exact Hpass | now rewrite Hfiles].
Defined.

(** * The status page and the log file *)

Lemma render_event_pure (show_datetime : Q -> string)
    (py_str : value -> string) (e : event) (s : state) :
  snd (render_event show_datetime py_str e s) = s.
Proof.
  unfold render_event.
  destruct (dict_get "timestamp" e) as [[ | t | ]|]; trivial.
  destruct (dict_get "type" e) as [ty|]; trivial.
  destruct (value_eq_str ty "response_failed"); trivial.
  destruct (value_eq_str ty "response_received").
  { now destruct (dict_get "duration" e) as [[ | | ]|]. }
  destruct (value_eq_str ty "requirement_passed").
  { now destruct (dict_get "requirement" e). }
  destruct (value_eq_str ty "requirement_failed"); trivial.
  now destruct (dict_get "requirement" e).
Qed.

(** X11.  The status page is served from a [Log] of its own, and opening
    a [Log] creates the file: asked when the log file does not exist, the
    status page answers the empty page and writes an empty log to the
    path. *)
Theorem X11_status_page_creates_the_log (show_datetime : Q -> string)
    (py_str : value -> string) (logfile : string) (s : state) :
  files s logfile = None ->
  status_page show_datetime py_str logfile s
  = (Ret "",
     mkState [] (write_file logfile (FileJson (JObj [])) (files s)) (ticks s)
       (trace s ++ [EWrite logfile (JObj [])])).
Proof.
  intros Hf. unfold status_page.
  rewrite (bind_Ret _ _ (Log_init_absent logfile false s Hf)).
  rewrite app_nil_r. reflexivity.
Qed.

Lemma X11_status_page_creates_the_log_witness :
  fst (status_page Sample.show_datetime Sample.py_str "log.json" Sample.start)
  = Ret ""
  /\ files (snd (status_page Sample.show_datetime Sample.py_str "log.json"
                   Sample.start)) "log.json"
     = Some (FileJson (JObj [])).
Proof.
  rewrite (X11_status_page_creates_the_log Sample.show_datetime Sample.py_str
             "log.json" Sample.start eq_refl).
  split; reflexivity.
Defined.

(** X12.  When the log file exists the status page only reads: whatever
    the file holds and whatever the outcome (the page, or an exception on
    a file or an event it cannot use), no file is changed and nothing is
    requested, written or printed. *)
Theorem X12_status_page_only_reads (show_datetime : Q -> string)
    (py_str : value -> string) (logfile : string) (s : state) :
  files s logfile <> None ->
  let s' := snd (status_page show_datetime py_str logfile s) in
  files s' = files s /\ trace s' = trace s.
Proof.
  intros Hf. simpl.
  set (R := fun s1 s2 : state => files s2 = files s1 /\ trace s2 = trace s1).
  assert (R_refl : forall s1, R s1 s1) by (intros s1; split; reflexivity).
  assert (R_trans : forall s1 s2 s3, R s1 s2 -> R s2 s3 -> R s1 s3).
  { intros s1 s2 s3 [F1 T1] [F2 T2]. split; congruence. }
  change (R s (snd (status_page show_datetime py_str logfile s))).
  unfold status_page. unfold bind at 1.
  destruct (Log_init_cases logfile false s) as (_ & _ & Hinit).
  destruct (Hinit Hf) as [Hfiles Htrace]. rewrite app_nil_r in Htrace.
  destruct (Log_init logfile false s) as [[log| e |] s1];
    cbn [snd] in *; try (split; assumption).
  apply R_trans with s1; [split; assumption|].
  apply (always_bind R R_trans).
  - intros s0. apply R_refl.
  - intros pages. apply (always_bind R R_trans); [|intros parts s0; apply R_refl].
    apply (always_for_each_acc R R_refl R_trans).
    intros parts page. apply (always_bind R R_trans).
    + intros s0. unfold Log_get_events, bind, get_log, set_log.
      destruct (dd_getitem page (_log s0)). split; reflexivity.
    + intros events. apply (always_bind R R_trans);
        [|intros parts' s0; apply R_refl].
      apply (always_for_each_acc R R_refl R_trans).
      intros parts' e. apply (always_bind R R_trans).
      * intros s0. rewrite render_event_pure. apply R_refl.
      * intros items s0. apply R_refl.
Qed.

Lemma X12_status_page_only_reads_witness :
  files (snd (status_page Sample.show_datetime Sample.py_str "log.json"
                SampleRun.broken_log)) = files SampleRun.broken_log
  /\ trace (snd (status_page Sample.show_datetime Sample.py_str "log.json"
                   SampleRun.broken_log)) = trace SampleRun.broken_log.
Proof.
  apply (X12_status_page_only_reads Sample.show_datetime Sample.py_str
           "log.json" SampleRun.broken_log).
  discriminate.
Defined.

(** * A whole run *)

Lemma load_config_present (configfile : string) (s : state) (j : json)
    (pages : config) :
  files s configfile = Some (FileJson j) ->
  config_of_json j = Some pages ->
  load_config configfile s = (Ret pages, s).
Proof.
  intros Hf Hj.
  unfold load_config, bind, os_path_exists, open_read_json, expect.
  rewrite Hf. simpl. now rewrite Hf, Hj.
Qed.

Lemma load_config_not_json (configfile : string) (s : state) (text : string) :
  files s configfile = Some (FileText text) ->
  load_config configfile s = (Raise JSONDecodeError, s).
Proof.
  intros Hf. unfold load_config, bind, os_path_exists, open_read_json.
  rewrite Hf. simpl. now rewrite Hf.
Qed.

(** X13.  A file that is not JSON stops [run_check] at startup with
    [JSONDecodeError]: the config file before anything else is done, the
    log file after the config is loaded and before the first request.
    Neither file is changed. *)
Theorem X13_startup_needs_json (clock : nat -> Q)
    (requests_get : nat -> string -> response)
    (re_search : string -> string -> search_result)
    (fuel : nat) (configfile : string) (delay : Z) (logfile : string)
    (verbose html : bool) (s : state) (text : string) :
  (files s configfile = Some (FileText text) ->
   run_check clock requests_get re_search fuel configfile delay logfile
     verbose html s = (Raise JSONDecodeError, s))
  /\ (forall j pages,
        files s configfile = Some (FileJson j) ->
        config_of_json j = Some pages ->
        files s logfile = Some (FileText text) ->
        exists s',
          run_check clock requests_get re_search fuel configfile delay logfile
            verbose html s = (Raise JSONDecodeError, s')
          /\ files s' = files s
          /\ io_trace (trace s') = io_trace (trace s)).
Proof.
  split.
  - intros Hf. unfold run_check.
    now rewrite (bind_Raise _ _ _ _ _ (load_config_not_json configfile s text Hf)).
  - intros j pages Hconfig Hj Hlog. unfold run_check.
    rewrite (bind_Ret _ _ (load_config_present configfile s j pages Hconfig Hj)).
    rewrite (bind_Raise _ _ _ _ _ (Log_init_not_json logfile verbose s text Hlog)).
    eexists. split; [reflexivity|]. cbn [files trace]. split; trivial.
    rewrite io_trace_app. destruct verbose; simpl; now rewrite app_nil_r.
Qed.

Lemma X13_startup_needs_json_witness :
  run_check Sample.clock Sample.requests_get literal_search 1 "log.json" (-1)
    "other.json" false false SampleRun.broken_log
  = (Raise JSONDecodeError, SampleRun.broken_log).
Proof.
  apply (proj1 (X13_startup_needs_json Sample.clock Sample.requests_get
                  literal_search 1 "log.json" (-1) "other.json" false false
                  SampleRun.broken_log "not json")).
  reflexivity.
Defined.

(** X14.  A single run from a config whose requirements can be evaluated,
    beside no log file: [run_check] returns after creating the log file
    and making one pass, so the saves are one more than the pages, each
    page is requested once in the config's order, nothing sleeps, and at
    the end the log file holds the log as it is in memory. *)
Theorem X14_single_run (clock : nat -> Q)
    (requests_get : nat -> string -> response)
    (re_search : string -> string -> search_result)
    (fuel : nat) (configfile : string) (delay : Z) (logfile : string)
    (verbose html : bool) (s : state) (j : json) (pages : config) :
  files s configfile = Some (FileJson j) ->
  config_of_json j = Some pages ->
  files s logfile = None ->
  config_ok re_search pages ->
  (delay < 0)%Z ->
  exists s' tr,
    run_check clock requests_get re_search (S fuel) configfile delay logfile
      verbose html s = (Ret tt, s')
    /\ trace s' = trace s ++ tr
    /\ io_trace tr = Save logfile :: pass_io pages (mkLog logfile verbose)
    /\ files s' logfile = Some (FileJson (log_to_json (_log s'))).
Proof.
  intros Hconfig Hj Hlog Hok Hdelay. unfold run_check.
  rewrite (bind_Ret _ _ (load_config_present configfile s j pages Hconfig Hj)).
  rewrite (bind_Ret _ _ (Log_init_absent logfile verbose s Hlog)).
  set (log := mkLog logfile verbose).
  match goal with |- context [bind (when html ?m) ?k ?s0] =>
    set (s1 := s0);
    assert (Hhtml : exists tr0,
               when html m s1 = (Ret tt, add_trace s1 tr0)
               /\ io_trace tr0 = [])
  end.
  { destruct html.
    - exists [EThreadStart logfile]. now split.
    - exists []. unfold when, ret. now rewrite add_trace_nil. }
  destruct Hhtml as (tr0 & Hhtml & Hq0). rewrite (bind_Ret _ _ Hhtml).
  unfold run_loop. cbn [while_true].
  destruct (print_when_quiet verbose (OutStr "Starting check..")
              (add_trace s1 tr0)) as (tr1 & Hprint & Hq1).
  destruct (check_pass_returns clock requests_get re_search pages log
              (add_trace (add_trace s1 tr0) tr1) Hok)
    as (s2 & tr2 & Hpass & Htr2 & Hio2).
  unfold bind at 1. unfold bind at 1. unfold bind at 1. rewrite Hprint.
  unfold bind at 1. rewrite Hpass.
  apply Z.ltb_lt in Hdelay. rewrite Hdelay. cbn [ret].
  destruct (print_when_quiet verbose (OutStr "Finished") s2)
    as (tr3 & Hfinished & Hq3).
  rewrite Hfinished.
  exists (add_trace s2 tr3). eexists. split; [reflexivity|].
  cbn [add_trace trace files _log]. rewrite Htr2.
  cbn [add_trace trace]. unfold s1. cbn [trace].
  split; [rewrite <- !app_assoc; reflexivity|]. split.
  - rewrite !io_trace_app, Hq0, Hq1, Hio2, Hq3.
    destruct verbose; simpl; now rewrite app_nil_r.
  - destruct pages as [|item pages].
    + unfold check_pass in Hpass. simpl in Hpass. injection Hpass as <-.
      cbn [add_trace files _log]. unfold s1. cbn [files _log].
      apply write_file_same.
    + cbn [add_trace files _log].
      exact (check_pass_saved clock requests_get re_search (item :: pages) log
               (add_trace (add_trace s1 tr0) tr1) s2
               ltac:(discriminate) Hpass).
Qed.

Lemma X14_single_run_witness :
  exists s' tr,
    run_check Sample.clock Sample.requests_get literal_search 1 "pages.json"
      (-1) "log.json" false false SampleRun.configured = (Ret tt, s')
    /\ trace s' = trace SampleRun.configured ++ tr
    /\ io_trace tr
       = [Save "log.json"; Get "http://example.test"; Save "log.json"]
    /\ files s' "log.json" = Some (FileJson (log_to_json (_log s'))).
Proof.
  apply (X14_single_run Sample.clock Sample.requests_get literal_search 0
           "pages.json" (-1) "log.json" false false SampleRun.configured
           SampleRun.config_json [("site", Sample.site)]).
  - reflexivity.
  - reflexivity.
  - reflexivity.
  - repeat constructor.
    exists "content_includes", ["Example"],
      (content_includes_checker literal_search).
    repeat split. intros. apply literal_search_answers.
  - reflexivity.
Defined.

(** X15.  A run continues the log of the runs before it.  Opened on a file
    that the program saved, a [Log] holds the saved events; an event added
    then comes after the events the page already had, the other pages are
    untouched, and the next save writes the old events and the new one. *)
Theorem X15_restart_continues_the_log (clock : nat -> Q) (path page : string)
    (v : bool) (e : event) (l : log_map) (s : state) :
  log_ok l ->
  files s path = Some (FileJson (log_to_json l)) ->
  let stamped := dict_set "timestamp" (VNum (clock (ticks s))) e in
  exists s',
    (log <- Log_init path v ;;
     Log_add_event clock log page e ;;
     Log_save log) s = (Ret tt, s')
    /\ page_events page (_log s') = page_events page l ++ [stamped]
    /\ (forall p, p <> page -> dict_get p (_log s') = dict_get p l)
    /\ files s' path = Some (FileJson (log_to_json (_log s'))).
Proof.
  intros Hok Hfile stamped.
  rewrite (bind_Ret _ _ (Log_init_present path v s _ l Hfile
                           (log_of_to_json l Hok))).
  rewrite dict_update_nil by apply Hok.
  rewrite (bind_Ret _ _ (Log_add_event_eq clock _ page e _)).
  rewrite Log_save_eq. cbn [_log files ticks trace logfile].
  eexists. split; [reflexivity|]. cbn [_log files]. fold stamped.
  repeat split.
  - unfold page_events at 1. now rewrite page_events_dd_append_same.
  - intros p Hp. now apply dd_append_other.
  - apply write_file_same.
Qed.

Lemma X15_restart_continues_the_log_witness :
  exists s',
    (log <- Log_init "log.json" false ;;
     Log_add_event Sample.clock log "site"
       [("type", VStr "response_failed"); ("error", VStr "timed out")] ;;
     Log_save log) SampleLog.on_disk = (Ret tt, s')
    /\ page_events "site" (_log s')
       = map event_dict SampleLog.fifteen
           ++ [event_dict (ResponseFailed (Sample.clock 0) "timed out")].
Proof.
  destruct (X15_restart_continues_the_log Sample.clock "log.json" "site" false
              [("type", VStr "response_failed"); ("error", VStr "timed out")]
              (log_dicts SampleLog.log) SampleLog.on_disk)
    as (s' & Hrun & Hpage & _).
  - apply log_dicts_ok. unfold is_dict. simpl. repeat constructor. intros [].
  - reflexivity.
  - exists s'. split; [exact Hrun | exact Hpage].
Defined.
